(** * Unified search gateway (index.js): model and verification

    A shallow embedding of the fan-out / merge / rank pipeline of the
    unified search service: the text normalizer
    ([stripHtmlAndCreateSnippet]), the three source adapters
    ([searchZendesk], [searchDocumentation], [searchKnowledgeBase]), the
    ranker ([rankResults]) and the handler of [POST /api/search/unified].

    Conventions of the model.
    - A JavaScript string is the list of its code units; the development
      covers the code units below 256 (Latin-1), on which [toLowerCase],
      [trim] and the regular-expression class [\s] are written out.
    - A JavaScript number that carries a score is an exact rational: the
      sums and products of the scores are the exact ones, which the
      doubles of the program approximate to within their rounding.  The
      integer quantities (limits, lengths, timestamps in milliseconds)
      are integers.  The two places where the program rounds a product
      before it compares or rounds it up, [lastSpaceIndex > maxLength *
      0.7] and [Math.ceil(limit * 0.4)], are evaluated on binary64
      floats.
    - A statement that throws is an [Outcome] that [Throws]; the [catch]
      blocks of the adapters and of the handler are written out.
    - [new Date()] and the HTTP calls are inputs of the model. *)

From Stdlib Require Import List Bool Arith ZArith QArith Lia.
From Stdlib Require Import Ascii String DecimalString.
From Stdlib Require Import Permutation Sorted.
From Stdlib Require Import Floats Uint63.
Import ListNotations.

Set Implicit Arguments.

(** [length] is the length of a list throughout. *)
Abbreviation length := Datatypes.length.

Close Scope Q_scope.
Close Scope Z_scope.
Open Scope nat_scope.
Open Scope list_scope.

(* ================================================================== *)
(** * JavaScript strings *)
(* ================================================================== *)

Module JsString.

(** A string value: its code units, in order. *)
Definition str := list ascii.

(** String literals of the source. *)
Definition lit (s : string) : str := list_ascii_of_string s.

Definition code (c : ascii) : nat := nat_of_ascii c.

Definition space : ascii := ascii_of_nat 32.
Definition dquote : ascii := ascii_of_nat 34.

Definition ascii_eqb (a b : ascii) : bool := Ascii.eqb a b.

Fixpoint str_eqb (a b : str) : bool :=
  match a, b with
  | [], [] => true
  | x :: a', y :: b' => ascii_eqb x y && str_eqb a' b'
  | _, _ => false
  end.

(** White space as [String.prototype.trim] and the class [\s] see it,
    among the code units below 256: TAB, LF, VT, FF, CR, SP, NBSP. *)
Definition is_whitespace (c : ascii) : bool :=
  let n := code c in
  ((9 <=? n) && (n <=? 13)) || (n =? 32) || (n =? 160).

(** [String.prototype.toLowerCase] on one code unit: A-Z, and the
    Latin-1 capitals U+00C0..U+00DE except the multiplication sign. *)
Definition lower_char (c : ascii) : ascii :=
  let n := code c in
  if ((65 <=? n) && (n <=? 90))
     || ((192 <=? n) && (n <=? 222) && negb (n =? 215))
  then ascii_of_nat (n + 32) else c.

Definition toLowerCase (s : str) : str := map lower_char s.

(** [s.startsWith(p)]. *)
Fixpoint startsWith (p s : str) : bool :=
  match p, s with
  | [], _ => true
  | _ :: _, [] => false
  | x :: p', y :: s' => ascii_eqb x y && startsWith p' s'
  end.

(** [s.includes(p)]: [p] occurs in [s] at some position. *)
Fixpoint includes (s p : str) : bool :=
  startsWith p s ||
  match s with
  | [] => false
  | _ :: s' => includes s' p
  end.

Fixpoint trimStart (s : str) : str :=
  match s with
  | [] => []
  | c :: r => if is_whitespace c then trimStart r else s
  end.

Fixpoint trimEnd (s : str) : str :=
  match s with
  | [] => []
  | c :: r =>
      match trimEnd r with
      | [] => if is_whitespace c then [] else [c]
      | kept => c :: kept
      end
  end.

(** [s.trim()]. *)
Definition trim (s : str) : str := trimEnd (trimStart s).

(** [s.split(sep)] for a one-character separator: every occurrence of
    the separator ends a piece, so adjacent separators give empty
    pieces and the empty string gives one empty piece. *)
Fixpoint split_char (sep : ascii) (s : str) : list str :=
  match s with
  | [] => [[]]
  | c :: r =>
      if ascii_eqb c sep then [] :: split_char sep r
      else match split_char sep r with
           | [] => [[c]]
           | piece :: pieces => (c :: piece) :: pieces
           end
  end.

(** [s.split(/\s+/)]: a maximal run of white space is one separator. *)
Fixpoint split_whitespace (s : str) : list str :=
  match s with
  | [] => [[]]
  | c :: r =>
      if is_whitespace c then
        match r with
        | c' :: _ => if is_whitespace c' then split_whitespace r
                     else [] :: split_whitespace r
        | [] => [] :: split_whitespace r
        end
      else match split_whitespace r with
           | [] => [[c]]
           | piece :: pieces => (c :: piece) :: pieces
           end
  end.

(** [parts.join(sep)]. *)
Fixpoint join (sep : str) (parts : list str) : str :=
  match parts with
  | [] => []
  | [p] => p
  | p :: rest => p ++ sep ++ join sep rest
  end.

(** [s.substring(0, n)] for [0 <= n]. *)
Definition substring0 (n : nat) (s : str) : str := firstn n s.

(** [s.lastIndexOf(" ")]: [None] stands for the result [-1]. *)
Fixpoint lastIndexOf_space_from (i : nat) (s : str) : option nat :=
  match s with
  | [] => None
  | c :: r =>
      match lastIndexOf_space_from (S i) r with
      | Some j => Some j
      | None => if ascii_eqb c space then Some i else None
      end
  end.

Definition lastIndexOf_space (s : str) : option nat :=
  lastIndexOf_space_from 0 s.

(** [s.replace(/p/g, r)] for a literal, non-empty pattern [p]: matches
    are taken left to right and do not overlap.  [skip] counts the code
    units of the current match that are still to be consumed. *)
Fixpoint replaceAll_from (skip : nat) (p r s : str) : str :=
  match s with
  | [] => []
  | c :: s' =>
      match skip with
      | S k => replaceAll_from k p r s'
      | O =>
          if startsWith p s
          then r ++ replaceAll_from (Nat.pred (length p)) p r s'
          else c :: replaceAll_from 0 p r s'
      end
  end.

Definition replaceAll (p r s : str) : str := replaceAll_from 0 p r s.

End JsString.

Import JsString.

(* ================================================================== *)
(** * Text normalizer: [stripHtmlAndCreateSnippet] *)
(* ================================================================== *)

Module TextNormalizer.

Definition placeholder : str := lit "No preview available".
Definition ellipsis : str := lit "...".

Definition lt_char : ascii := ascii_of_nat 60.
Definition gt_char : ascii := ascii_of_nat 62.

(** [.replace(/<[^>]*>/g, ' ')].  A match starts at a [<] that has a
    [>] somewhere after it and ends at the first such [>].  [inside]
    says that the scan is between the [<] of a match and its [>]. *)
Fixpoint strip_tags_from (inside : bool) (s : str) : str :=
  match s with
  | [] => []
  | c :: r =>
      if inside then
        if ascii_eqb c gt_char then strip_tags_from false r
        else strip_tags_from true r
      else if ascii_eqb c lt_char && existsb (ascii_eqb gt_char) r
           then space :: strip_tags_from true r
           else c :: strip_tags_from false r
  end.

Definition strip_tags (s : str) : str := strip_tags_from false s.

(** The six entities of the source with their replacements, in the
    order of the chained [.replace] calls. *)
Definition entities : list (str * str) :=
  [ (lit "&nbsp;", [space]);
    (lit "&amp;", lit "&");
    (lit "&lt;", [lt_char]);
    (lit "&gt;", [gt_char]);
    (lit "&quot;", [dquote]);
    (lit "&#39;", lit "'") ].

Definition decode_entities (s : str) : str :=
  fold_left (fun acc e => replaceAll (fst e) (snd e) acc) entities s.

(** [.replace(/\s+/g, ' ')]: the space is emitted at the last code unit
    of each run. *)
Fixpoint collapse_whitespace (s : str) : str :=
  match s with
  | [] => []
  | c :: r =>
      if is_whitespace c then
        match r with
        | c' :: _ => if is_whitespace c' then collapse_whitespace r
                     else space :: collapse_whitespace r
        | [] => [space]
        end
      else c :: collapse_whitespace r
  end.

(** The chain of replacements and the final [.trim()]. *)
Definition clean (htmlText : str) : str :=
  trim (collapse_whitespace (decode_entities (strip_tags htmlText))).

(** A length or an index as a double: exact below 2^53. *)
Definition float_of_nat (n : nat) : float :=
  PrimFloat.of_uint63 (Uint63.of_Z (Z.of_nat n)).

(** The double that the literal [0.7] denotes. *)
Definition seven_tenths : float := 0x1.6666666666666p-1%float.

(** [lastSpaceIndex > maxLength * 0.7], on doubles as the source
    computes it; the index [-1] of a missing space is never beyond a
    non-negative bound.  The product is rounded: for the 200 that the
    adapters pass it is exactly 140, for some other bounds it lies just
    below the exact value (90 * 0.7 is 62.99999999999999). *)
Definition beyond_70_percent (lastSpaceIndex : option nat)
                             (maxLength : nat) : bool :=
  match lastSpaceIndex with
  | None => false
  | Some i =>
      PrimFloat.ltb (PrimFloat.mul (float_of_nat maxLength) seven_tenths)
                    (float_of_nat i)
  end.

(** The [if (cleanText.length > maxLength)] block. *)
Definition truncate (cleanText : str) (maxLength : nat) : str :=
  if maxLength <? length cleanText then
    let truncated := substring0 maxLength cleanText in
    let lastSpaceIndex := lastIndexOf_space truncated in
    if beyond_70_percent lastSpaceIndex maxLength then
      match lastSpaceIndex with
      | Some i => substring0 i truncated ++ ellipsis
      | None => truncated ++ ellipsis
      end
    else truncated ++ ellipsis
  else cleanText.

(** [stripHtmlAndCreateSnippet(htmlText, maxLength)].  [None] is an
    argument that is absent, [null] or not a string. *)
Definition stripHtmlAndCreateSnippet (htmlText : option str)
                                     (maxLength : nat) : str :=
  match htmlText with
  | None => placeholder
  | Some [] => placeholder
  | Some h =>
      let cleanText := truncate (clean h) maxLength in
      match cleanText with
      | [] => placeholder
      | _ => cleanText
      end
  end.

End TextNormalizer.

Import TextNormalizer.

(* ================================================================== *)
(** * Values, results and upstream payloads *)
(* ================================================================== *)

(** A JSON value, as a request body or an upstream payload carries it. *)
#[local] Unset Elimination Schemes.
Inductive json : Type :=
| JNull
| JBool (b : bool)
| JNum (q : Q)
| JStr (s : str)
| JArr (items : list json)
| JObj (fields : list (str * json)).
#[local] Set Elimination Schemes.

(** JavaScript truthiness of a JSON value. *)
Definition truthy (v : json) : bool :=
  match v with
  | JNull => false
  | JBool b => b
  | JNum q => negb (Qeq_bool q 0)
  | JStr s => negb (str_eqb s [])
  | JArr _ | JObj _ => true
  end.

(** An integer inside a template literal: its decimal digits.  (From
    10^21 on JavaScript prints a number in exponent notation; the ids
    of the model stay below.) *)
Definition render (z : Z) : str :=
  list_ascii_of_string (DecimalString.NilEmpty.string_of_int (Z.to_int z)).

(** The text of a field that holds a string, and the empty text for a
    field that holds none. *)
Definition text_of (x : option str) : str :=
  match x with Some s => s | None => [] end.

(** The unified result schema.  [title] is [None] when the field holds
    no string (it is absent, [null], a number, ...): the help-center
    adapters copy [article.title] as they find it.  [last_updated] holds
    the instant the field denotes, in milliseconds since the epoch;
    [None] when the field is absent, [null], empty or not a date (the age
    is then [NaN] and both recency comparisons fail). *)
Record SearchResult : Type := mkResult {
  id : str;
  title : option str;
  url : str;
  snippet : str;
  content : option str;
  score : Q;
  source : str;
  category : option str;
  section : json;
  last_updated : option Z;
  metadata : list (str * json)
}.

(** [{ ...result, score }]. *)
Definition with_score (r : SearchResult) (s : Q) : SearchResult :=
  mkResult (id r) (title r) (url r) (snippet r) (content r) s (source r)
           (category r) (section r) (last_updated r) (metadata r).

(** An article of the help-center search response.  [article_title] is
    [None] when the article carries no string as its title. *)
Record Article : Type := mkArticle {
  article_id : Z;
  article_title : option str;
  html_url : str;
  body : option str;
  article_score : option Q;
  section_id : option Z;
  updated_at : option Z;
  locale : json;
  created_at : json
}.

(** A document of the documentation search index: title [t], URL path
    [u], breadcrumb segments [b], internal id [i]. *)
Record Doc : Type := mkDoc {
  t : option str;
  u : option str;
  b : option (list str);
  i : Z
}.

(** What an [axios.get] gives: a response body, or a rejection (timeout,
    network error, status outside 2xx). *)
Inductive Http (A : Type) : Type :=
| Response (data : A)
| Failure (message : str).
Arguments Failure {A} message.

(** Body of the help-center search: [data.results] is an array of
    articles, or the body is malformed and [data.results.map] throws. *)
Inductive ZendeskBody : Type :=
| ZendeskResults (results : list Article)
| ZendeskMalformed.

(** Body of the index download, by the tests the adapter makes on it. *)
Inductive IndexBody : Type :=
| IndexNotArray                          (* [!data || !Array.isArray(data)] *)
| IndexNoDocuments                       (* [!data[0] || !data[0].documents] *)
| IndexMalformed                         (* [documents.forEach] throws *)
| IndexDocuments (documents : list Doc).

(** The state of a settled promise. *)
Inductive Settled (A : Type) : Type :=
| Fulfilled (value : A)
| Rejected (reason : str).
Arguments Rejected {A} reason.

(** A [try] block either completes with a value or throws. *)
Inductive Outcome (A : Type) : Type :=
| Returns (value : A)
| Throws (message : str).
Arguments Throws {A} message.

(** Two statements in sequence: the second runs when the first has not
    thrown. *)
Definition and_then {A B : Type} (step : Outcome A) (next : A -> Outcome B)
  : Outcome B :=
  match step with
  | Returns value => next value
  | Throws message => Throws message
  end.

Notation "x <- step ;; next" :=
  (and_then step (fun x => next))
  (at level 61, step at next level, right associativity).

(** [xs.map(callback)] for a callback that may throw: the exception of
    the first element that throws leaves the call. *)
Fixpoint array_map {A B : Type} (callback : A -> Outcome B) (xs : list A)
  : Outcome (list B) :=
  match xs with
  | [] => Returns []
  | x :: rest =>
      y <- callback x ;;
      ys <- array_map callback rest ;;
      Returns (y :: ys)
  end.

(** [async function f() { try { body } catch (error) { return [] } }]. *)
Definition catch_empty {A : Type} (block : Outcome (list A))
  : Settled (list A) :=
  match block with
  | Returns v => Fulfilled v
  | Throws _ => Fulfilled []
  end.

(** [xs.slice(0, n)] for an integer [n]: a negative [n] counts from the
    end. *)
Definition slice0 {A : Type} (n : Z) (xs : list A) : list A :=
  if (n <? 0)%Z then firstn (length xs - Z.to_nat (- n)) xs
  else firstn (Z.to_nat n) xs.

(** [Array.prototype.sort(compareFn)].  The sort is stable, so for a
    consistent comparator its result is the one stable insertion
    computes: [x] goes before the first [y] with [compareFn(x, y) <= 0]. *)
Section JsSort.
Variable A : Type.
Variable compareFn : A -> A -> Q.

Fixpoint sort_insert (x : A) (sorted : list A) : list A :=
  match sorted with
  | [] => [x]
  | y :: rest =>
      if Qle_bool (compareFn x y) 0 then x :: sorted
      else y :: sort_insert x rest
  end.

Definition js_sort (xs : list A) : list A :=
  fold_right sort_insert [] xs.
End JsSort.

(** [(a, b) => b.score - a.score]. *)
Definition by_score_desc (a b : SearchResult) : Q := (score b - score a)%Q.

(* ================================================================== *)
(** * Source adapters *)
(* ================================================================== *)

(** What the service reads from outside: the help-center search endpoint
    (by [query] and [per_page] parameter), the documentation index, and
    the clock at the two places where [new Date()] is evaluated: in the
    loop of [searchDocumentation] and in the callback of [rankResults]
    (one reading for each of the two loops). *)
Record World : Type := mkWorld {
  help_center_search : str -> Z -> Http ZendeskBody;
  search_index : Http IndexBody;
  clock_docs : Z;
  clock_rank : Z
}.

(** [x || 0] for a numeric field that may be absent. *)
Definition or_zero (x : option Q) : Q :=
  match x with
  | Some q => if Qeq_bool q 0 then 0%Q else q
  | None => 0%Q
  end.

Definition tag_zendesk : str := lit "zendesk".
Definition tag_docs : str := lit "docs".
Definition tag_knowledge_base : str := lit "knowledge_base".

Section Adapters.

Variable world : World.

(** The separator of the breadcrumb trail in a documentation snippet
    (the argument of [doc.b.join]): a space, the code unit U+203A and a
    space.  U+203A lies outside the code units the model writes out. *)
Variable breadcrumb_separator : str.

Definition section_json (a : Article) : json :=
  match section_id a with
  | Some z => JNum (inject_Z z)
  | None => JNull
  end.

Definition zendesk_category (a : Article) : option str :=
  match section_id a with
  | Some z => if (z =? 0)%Z then None
              else Some (lit "Section " ++ render z)
  | None => None
  end.

(** The object literal of [searchZendesk]. *)
Definition zendesk_result (a : Article) : SearchResult :=
  {| id := lit "zendesk_" ++ render (article_id a);
     title := article_title a;
     url := html_url a;
     snippet := stripHtmlAndCreateSnippet (body a) 200;
     content := body a;
     score := or_zero (article_score a);
     source := tag_zendesk;
     category := zendesk_category a;
     section := section_json a;
     last_updated := updated_at a;
     metadata := [ (lit "locale", locale a);
                   (lit "created_at", created_at a);
                   (lit "article_id", JNum (inject_Z (article_id a))) ] |}.

(** The object literal of [searchKnowledgeBase]. *)
Definition kb_result (a : Article) : SearchResult :=
  {| id := lit "kb_" ++ render (article_id a);
     title := article_title a;
     url := html_url a;
     snippet := stripHtmlAndCreateSnippet (body a) 200;
     content := body a;
     score := (or_zero (article_score a) * (8 # 10))%Q;
     source := tag_knowledge_base;
     category := Some (lit "Knowledge Base");
     section := section_json a;
     last_updated := updated_at a;
     metadata := [ (lit "locale", locale a);
                   (lit "created_at", created_at a);
                   (lit "article_id", JNum (inject_Z (article_id a)));
                   (lit "search_type", JStr tag_knowledge_base) ] |}.

(** The [try] block shared by the two help-center adapters: the request
    and [response.data.results.map(...)]. *)
Definition help_center_try (q : str) (per_page : Z)
                           (mk : Article -> SearchResult)
  : Outcome (list SearchResult) :=
  match help_center_search world q per_page with
  | Failure message => Throws message
  | Response ZendeskMalformed =>
      Throws (lit "Cannot read properties of undefined")
  | Response (ZendeskResults articles) => Returns (map mk articles)
  end.

Definition searchZendesk (query : str) (limit : Z)
  : Settled (list SearchResult) :=
  catch_empty (help_center_try (trim query) limit zendesk_result).

Definition kb_keywords : str :=
  lit " (FAQ OR troubleshooting OR " ++ [dquote] ++ lit "how to"
  ++ [dquote] ++ lit " OR problem OR issue OR error)".

Definition searchKnowledgeBase (query : str) (limit : Z)
  : Settled (list SearchResult) :=
  catch_empty (help_center_try (trim query ++ kb_keywords) limit kb_result).

(** ** Documentation index *)

(** [!x] for an optional string field. *)
Definition missing (x : option str) : bool :=
  match x with
  | Some (_ :: _) => false
  | _ => true
  end.

(** [doc.b ? doc.b.join(' ').toLowerCase() : ''] *)
Definition breadcrumbText (d : Doc) : str :=
  match b d with
  | Some segments => toLowerCase (join [space] segments)
  | None => []
  end.

(** The body of [queryWords.forEach(word => ...)]. *)
Definition word_step (titleLower bc : str) (score : Z) (word : str) : Z :=
  let score := if includes titleLower word then (score + 20)%Z else score in
  if includes bc word then (score + 10)%Z else score.

(** The value of [score] when the document has been examined. *)
Definition lexical_score (queryLower : str) (queryWords : list str)
                         (d : Doc) : Z :=
  let titleLower := toLowerCase (text_of (t d)) in
  let bc := breadcrumbText d in
  let score := 0%Z in
  let score := if includes titleLower queryLower
               then (score + 100)%Z else score in
  let score := if includes bc queryLower then (score + 50)%Z else score in
  fold_left (word_step titleLower bc) queryWords score.

(** The object literal of [searchDocumentation]. *)
Definition docs_result (d : Doc) (lexical : Z) : SearchResult :=
  let title := text_of (t d) in
  {| id := lit "docs_" ++ render (i d);
     title := Some title;
     url := lit "https://help.getmaintainx.com" ++ text_of (u d);
     snippet := match b d with
                | Some segments => join breadcrumb_separator segments
                | None => lit "Documentation"
                end ++ lit " - " ++ title;
     content := Some (title ++ lit " - " ++
                      match b d with
                      | Some segments => join (lit ", ") segments
                      | None => []
                      end);
     score := (inject_Z lexical * (9 # 10))%Q;
     source := tag_docs;
     category := match b d with
                 | Some (first :: _) => Some first
                 | _ => Some (lit "Documentation")
                 end;
     section := match b d with
                | Some (_ :: second :: _) => JStr second
                | _ => JNull
                end;
     last_updated := Some (clock_docs world);
     metadata := [ (lit "breadcrumbs",
                    JArr (map JStr match b d with
                                   | Some segments => segments
                                   | None => []
                                   end));
                   (lit "docusaurus_id", JNum (inject_Z (i d)));
                   (lit "search_type", JStr (lit "docusaurus")) ] |}.

(** The body of [searchIndex.documents.forEach(doc => ...)], on the
    array [results] it pushes to. *)
Definition visit_doc (queryLower : str) (queryWords : list str)
                     (results : list SearchResult) (d : Doc)
  : list SearchResult :=
  if missing (t d) || missing (u d) then results
  else
    let lexical := lexical_score queryLower queryWords d in
    if (0 <? lexical)%Z then results ++ [docs_result d lexical]
    else results.

Definition docs_try (query : str) (limit : Z)
  : Outcome (list SearchResult) :=
  match search_index world with
  | Failure message => Throws message
  | Response IndexNotArray => Returns []
  | Response IndexNoDocuments => Returns []
  | Response IndexMalformed =>
      Throws (lit "searchIndex.documents.forEach is not a function")
  | Response (IndexDocuments documents) =>
      let queryLower := trim (toLowerCase query) in
      let queryWords :=
        filter (fun word => 2 <? length word)
               (split_whitespace queryLower) in
      let results :=
        fold_left (visit_doc queryLower queryWords) documents [] in
      Returns (slice0 limit (js_sort by_score_desc results))
  end.

Definition searchDocumentation (query : str) (limit : Z)
  : Settled (list SearchResult) :=
  catch_empty (docs_try query limit).

End Adapters.

(* ================================================================== *)
(** * Ranker: [rankResults] *)
(* ================================================================== *)

Module Ranker.

(** [query.toLowerCase().split(' ').filter(term => term.length > 2)] *)
Definition queryTerms (query : str) : list str :=
  filter (fun term => 2 <? length term)
         (split_char space (toLowerCase query)).

(** [queryTerms.filter(term => title.toLowerCase().includes(term)).length],
    for a result whose title is a string. *)
Definition titleMatches (query : str) (r : SearchResult) : nat :=
  length (filter (fun term => includes (toLowerCase (text_of (title r))) term)
                 (queryTerms query)).

(** [result.title.toLowerCase().includes(query.toLowerCase())], for a
    result whose title is a string. *)
Definition phrase_match (query : str) (r : SearchResult) : bool :=
  includes (toLowerCase (text_of (title r))) (toLowerCase query).

(** The table [sourcePriority], keyed by source tag.  The table is read
    through the keys it declares: the results of the three adapters carry
    the three tags of the table, and every other tag is taken to find
    nothing.  (A tag that names a property every object inherits, such
    as "constructor", would find that property; no adapter produces
    one.) *)
Definition sourcePriority : list (str * Z) :=
  [ (tag_zendesk, 10%Z); (tag_knowledge_base, 8%Z); (tag_docs, 6%Z) ].

Fixpoint lookup (table : list (str * Z)) (key : str) : option Z :=
  match table with
  | [] => None
  | (k, v) :: rest => if str_eqb k key then Some v else lookup rest key
  end.

(** [sourcePriority[result.source] || 0] *)
Definition source_boost (r : SearchResult) : Z :=
  match lookup sourcePriority (source r) with
  | Some p => p
  | None => 0%Z
  end.

Definition ms_per_day : Z := (1000 * 60 * 60 * 24)%Z.

(** The recency block.  [daysSinceUpdate < n] is decided on the age in
    milliseconds, which the division by [ms_per_day] preserves. *)
Definition recency_boost (now : Z) (updated : option Z) : Z :=
  match updated with
  | None => 0%Z
  | Some at_ms =>
      let age := (now - at_ms)%Z in
      ((if (age <? 30 * ms_per_day)%Z then 5 else 0)
       + (if (age <? 7 * ms_per_day)%Z then 10 else 0))%Z
  end.

(** The value of [score] at the end of the callback of [results.map],
    for a result whose title is a string. *)
Definition final_score (now : Z) (query : str) (r : SearchResult) : Q :=
  let score := or_zero (Some (score r)) in
  let score := (score + inject_Z (Z.of_nat (titleMatches query r) * 20))%Q in
  let score := if phrase_match query r then (score + 30)%Q else score in
  let score := (score + inject_Z (source_boost r))%Q in
  (score + inject_Z (recency_boost now (last_updated r)))%Q.

(** What the callback returns for a result whose title is a string. *)
Definition rescore (now : Z) (query : str) (r : SearchResult)
  : SearchResult :=
  with_score r (final_score now query r).

(** The callback of [results.map].  It evaluates
    [result.title.toLowerCase()], which throws a TypeError when the
    title is not a string. *)
Definition rank_callback (now : Z) (query : str) (r : SearchResult)
  : Outcome SearchResult :=
  match title r with
  | Some _ => Returns (rescore now query r)
  | None =>
      Throws (lit "Cannot read properties of undefined (reading 'toLowerCase')")
  end.

(** [results.map(callback).sort(compareFn)]: an exception of the
    callback leaves [rankResults]. *)
Definition rankResults (now : Z) (results : list SearchResult)
                       (query : str) : Outcome (list SearchResult) :=
  rescored <- array_map (rank_callback now query) results ;;
  Returns (js_sort by_score_desc rescored).

End Ranker.

Import Ranker.

(* ================================================================== *)
(** * Handler of [POST /api/search/unified] *)
(* ================================================================== *)

(** The request body after destructuring.  A field is [None] when the
    body does not carry it.  [query] and [sources] are kept as the JSON
    values received, since the handler tests the type of the first and
    calls methods of the second; [limit] is the number received, an
    integer (a double that holds an integer, hence below 2^53 in absolute
    value).  The fields [filters], [include_snippets] and [sort_by] are
    read and never used. *)
Record SearchRequest : Type := mkRequest {
  query : option json;
  limit : option Z;
  sources : option json
}.

Record SearchResponse : Type := mkResponse {
  success : bool;
  results : list SearchResult;
  total : nat;
  returned : nat;
  echoed_query : str;
  enabled_sources : list str;
  api_version : str
}.

Record ErrorResponse : Type := mkError {
  error_success : bool;
  error : str;
  error_query : json
}.

(** The body of the reply of the [catch] block, without its [details]
    (the message of the exception in development, a fixed text
    otherwise) and its [timestamp]. *)
Record FailureResponse : Type := mkFailure {
  failure_success : bool;
  failure_error : str
}.

(** The reply: [res.json(...)], [res.status(400).json(...)], or the
    [res.status(500).json(...)] of the [catch] block.  The [timestamp]
    of a reply is left out. *)
Inductive Reply : Type :=
| Status200 (body : SearchResponse)
| Status400 (body : ErrorResponse)
| Status500 (body : FailureResponse).

(** The reply of the [catch] block. *)
Definition service_error : Reply :=
  Status500 {| failure_success := false;
               failure_error := lit "Unified search service error" |}.

(** One invocation of an adapter: which one, and its two arguments. *)
Record AdapterCall : Type := mkCall {
  call_source : str;
  call_query : str;
  call_limit : Z
}.

(** An integer as a double: exact below 2^53 in absolute value. *)
Definition float_of_Z (z : Z) : float :=
  match z with
  | Z0 => PrimFloat.zero
  | Zpos _ => PrimFloat.of_uint63 (Uint63.of_Z z)
  | Zneg _ => PrimFloat.opp (PrimFloat.of_uint63 (Uint63.of_Z (- z)))
  end.

(** The doubles that the literals [0.4] and [0.3] denote. *)
Definition four_tenths : float := 0x1.999999999999ap-2%float.
Definition three_tenths : float := 0x1.3333333333333p-2%float.

(** [Math.ceil(x)] for a finite double, as an integer.  The double is
    [m * 2^e], negated when its sign is set, for a positive integer [m];
    a shift to the right rounds down. *)
Definition Math_ceil (x : float) : Z :=
  match Prim2SF x with
  | S754_finite negative m e =>
      if (0 <=? e)%Z then
        (if negative then - Z.shiftl (Zpos m) e else Z.shiftl (Zpos m) e)%Z
      else
        (if negative then - Z.shiftr (Zpos m) (- e)
         else - Z.shiftr (Zneg m) (- e))%Z
  | _ => 0%Z
  end.

(** [Math.ceil(limit * fraction)], on doubles as the source computes
    it. *)
Definition share (fraction : float) (limit : Z) : Z :=
  Math_ceil (PrimFloat.mul (float_of_Z limit) fraction).

(** [query || ''] in the error body. *)
Definition query_or_empty (q : option json) : json :=
  match q with
  | Some v => if truthy v then v else JStr []
  | None => JStr []
  end.

(** [!query || typeof query !== 'string' || query.trim().length < 2]:
    [Some s] is the query string that passes the validation. *)
Definition validated (q : option json) : option str :=
  match q with
  | Some (JStr s) =>
      if negb (truthy (JStr s)) then None
      else if length (trim s) <? 2 then None
      else Some s
  | _ => None
  end.

(** [sources.length], which the first log line of the handler
    evaluates: a TypeError on [null]; every other JSON value has the
    property or gives [undefined]. *)
Definition sources_length (sources : json) : Outcome unit :=
  match sources with
  | JNull => Throws (lit "Cannot read properties of null (reading 'length')")
  | _ => Returns tt
  end.

(** [v === text] for an element of an array. *)
Definition is_string (text : str) (v : json) : bool :=
  match v with
  | JStr s => str_eqb text s
  | _ => false
  end.

(** [sources.includes(tag)]: membership in an array, and for a string
    the test that [tag] occurs in it; the other JSON values have no
    method [includes] and the call throws a TypeError. *)
Definition sources_includes (sources : json) (tag : str) : Outcome bool :=
  match sources with
  | JArr items => Returns (existsb (is_string tag) items)
  | JStr s => Returns (includes s tag)
  | _ => Throws (lit "sources.includes is not a function")
  end.

Definition default_limit : Z := 10%Z.
Definition default_sources : json :=
  JArr [JStr tag_zendesk; JStr tag_docs; JStr tag_knowledge_base].

(** The three [if (sources.includes(tag))] blocks: the enabled tags with
    the limit each adapter is given, in the order of the blocks. *)
Definition plan (sources : json) (limit : Z) : Outcome (list (str * Z)) :=
  zendesk <- sources_includes sources tag_zendesk ;;
  docs <- sources_includes sources tag_docs ;;
  knowledge_base <- sources_includes sources tag_knowledge_base ;;
  Returns
    ((if zendesk then [(tag_zendesk, share four_tenths limit)] else [])
     ++ (if docs then [(tag_docs, share three_tenths limit)] else [])
     ++ (if knowledge_base
         then [(tag_knowledge_base, share three_tenths limit)] else [])).

(** The plan for an array of [sources] whose strings are [tags]. *)
Definition listed_plan (tags : list str) (limit : Z) : list (str * Z) :=
  (if existsb (str_eqb tag_zendesk) tags
   then [(tag_zendesk, share four_tenths limit)] else [])
  ++ (if existsb (str_eqb tag_docs) tags
      then [(tag_docs, share three_tenths limit)] else [])
  ++ (if existsb (str_eqb tag_knowledge_base) tags
      then [(tag_knowledge_base, share three_tenths limit)] else []).

Section Handler.

(** The adapter behind each source tag: called with the query and its
    share of the limit, it settles. *)
Variable adapter : str -> str -> Z -> Settled (list SearchResult).

(** The instant [rankResults] reads the clock. *)
Variable now : Z.

(** [await Promise.allSettled(searchPromises)]: one settled state per
    promise, in the order of the promises. *)
Definition allSettled (query : str) (planned : list (str * Z))
  : list (Settled (list SearchResult)) :=
  map (fun p => adapter (fst p) query (snd p)) planned.

(** The callback of [searchResults.forEach]. *)
Definition collect (allResults : list SearchResult)
                   (result : Settled (list SearchResult))
  : list SearchResult :=
  match result with
  | Fulfilled value =>
      if 0 <? length value then allResults ++ value else allResults
  | Rejected _ => allResults
  end.

Definition combine (settled : list (Settled (list SearchResult)))
  : list SearchResult :=
  fold_left collect settled [].

(** The handler: its reply and the adapter invocations it made.  The
    statements of the [try] block in their order: the log line, the
    validation, the three blocks and the wait, the ranking, the reply.
    An exception sends the [catch] block's reply; the adapters that were
    invoked before it stay invoked. *)
Definition unifiedSearch (req : SearchRequest) : Reply * list AdapterCall :=
  let limit := match limit req with Some l => l | None => default_limit end in
  let sources :=
    match sources req with Some s => s | None => default_sources end in
  match sources_length sources with
  | Throws _ => (service_error, [])
  | Returns _ =>
      match validated (query req) with
      | None =>
          (Status400
             {| error_success := false;
                error := lit "Query must be at least 2 characters long";
                error_query := query_or_empty (query req) |},
           [])
      | Some query =>
          match plan sources limit with
          | Throws _ => (service_error, [])
          | Returns planned =>
              let calls := map (fun p => mkCall (fst p) query (snd p)) planned in
              let searchResults := allSettled query planned in
              let allResults := combine searchResults in
              match rankResults now allResults query with
              | Throws _ => (service_error, calls)
              | Returns rankedResults =>
                  let finalResults := slice0 limit rankedResults in
                  (Status200 {| success := true;
                                results := finalResults;
                                total := length allResults;
                                returned := length finalResults;
                                echoed_query := trim query;
                                enabled_sources := map fst planned;
                                api_version := lit "unified_v1" |},
                   calls)
              end
          end
      end
  end.

End Handler.

(** The service: the handler over the three adapters of the source. *)
Definition adapters (world : World) (breadcrumb_separator : str)
                    (tag query : str) (limit : Z)
  : Settled (list SearchResult) :=
  if str_eqb tag tag_zendesk then searchZendesk world query limit
  else if str_eqb tag tag_docs
       then searchDocumentation world breadcrumb_separator query limit
       else searchKnowledgeBase world query limit.

Definition service (world : World) (breadcrumb_separator : str)
                   (req : SearchRequest) : Reply * list AdapterCall :=
  unifiedSearch (adapters world breadcrumb_separator) (clock_rank world) req.

(* ================================================================== *)
(** * Authentication middleware and the route *)
(* ================================================================== *)

(** [process.env.MXCHATBOT_API_KEY || 'dev-key-12345']: the argument is
    the environment variable, [None] when it is not set. *)
Definition API_KEY (env_key : option str) : str :=
  match env_key with
  | Some (c :: key) => c :: key
  | _ => lit "dev-key-12345"
  end.

(** What the middleware does with a request: pass it on ([next()]) or
    answer it with status 401 and the body [{success: false, error:
    message}]. *)
Inductive AuthOutcome : Type :=
| Next
| Unauthorized (message : str).

Definition missing_header_message : str :=
  lit "Missing or invalid authorization header. Use: Authorization: Bearer YOUR_API_KEY".

Definition invalid_key_message : str := lit "Invalid API key".

(** [authenticateApiKey]: [authorization] is the header
    [req.headers.authorization], [None] when the request has none. *)
Definition authenticateApiKey (api_key : str) (authorization : option str)
  : AuthOutcome :=
  match authorization with
  | None => Unauthorized missing_header_message
  | Some authHeader =>
      if negb (truthy (JStr authHeader))
         || negb (startsWith (lit "Bearer ") authHeader)
      then Unauthorized missing_header_message
      else
        let providedKey := skipn 7 authHeader in
        if negb (str_eqb providedKey api_key)
        then Unauthorized invalid_key_message
        else Next
  end.

(** The reply of the route [app.post('/api/search/unified',
    authenticateApiKey, handler)]: the middleware, then the handler.
    The rate limiter and the body parser, which come before the route,
    are not represented. *)
Inductive RouteReply : Type :=
| Status401 (message : str)
| Handled (reply : Reply).

Definition route (api_key : str)
                 (adapter : str -> str -> Z -> Settled (list SearchResult))
                 (now : Z) (authorization : option str) (req : SearchRequest)
  : RouteReply * list AdapterCall :=
  match authenticateApiKey api_key authorization with
  | Unauthorized message => (Status401 message, [])
  | Next =>
      (Handled (fst (unifiedSearch adapter now req)),
       snd (unifiedSearch adapter now req))
  end.

(* ================================================================== *)
(** * [calculateRelevanceScore] *)
(* ================================================================== *)

Record Item : Type := mkItem {
  item_title : str;
  item_content : str
}.

(** The body of [queryWords.forEach(word => ...)]. *)
Definition relevance_word_step (titleLower contentLower : str)
                               (score : Z) (word : str) : Z :=
  if 2 <? length word then
    let score := if includes titleLower word then (score + 10)%Z else score in
    if includes contentLower word then (score + 5)%Z else score
  else score.

Definition calculateRelevanceScore (item : Item) (query : str) : Z :=
  let queryLower := toLowerCase query in
  let titleLower := toLowerCase (item_title item) in
  let contentLower := toLowerCase (item_content item) in
  let score := 0%Z in
  let score := if includes titleLower queryLower
               then (score + 50)%Z else score in
  let score := if includes contentLower queryLower
               then (score + 25)%Z else score in
  let queryWords := split_char space queryLower in
  let score :=
    fold_left (relevance_word_step titleLower contentLower) queryWords score in
  Z.min score 100.

(* ================================================================== *)
(** * The vocabulary of the specification *)
(* ================================================================== *)

(** ** Orders on a numeric key *)

Section SortKeys.
Variable A : Type.
Variable key : A -> Q.

(** Descending by [key]: [(a, b) => key(b) - key(a)]. *)
Definition desc (a b : A) : Q := (key b - key a)%Q.

(** [a] may stand before [b]: the key of [b] is not above that of [a]. *)
Definition not_below (a b : A) : Prop := (key b <= key a)%Q.

Definition same_key (q : Q) (a : A) : bool := Qeq_bool (key a) q.
End SortKeys.

(** ** Ranker *)

Module RankerSpec.

(** Tokens "longer than 2 characters" of a case-folded query, for a
    given way of cutting the query into pieces. *)
Definition long_tokens (cut : str -> list str) (query : str) : list str :=
  filter (fun token => 2 <? length token) (cut (toLowerCase query)).

(** "plus 20 for each token that is contained in the lowercased title" *)
Fixpoint token_boost (titleLower : str) (tokens : list str) : Z :=
  match tokens with
  | [] => 0%Z
  | token :: rest =>
      ((if includes titleLower token then 20 else 0)
       + token_boost titleLower rest)%Z
  end.

(** "a flat 30 if the lowercased title contains the full lowercased
    query" *)
Definition phrase_boost (query : str) (r : SearchResult) : Z :=
  if includes (toLowerCase (text_of (title r))) (toLowerCase query)
  then 30%Z else 0%Z.

(** "zendesk +10, knowledge_base +8, docs +6, any other source +0" *)
Definition priority_constant (tag : str) : Z :=
  if str_eqb tag (lit "zendesk") then 10%Z
  else if str_eqb tag (lit "knowledge_base") then 8%Z
  else if str_eqb tag (lit "docs") then 6%Z
  else 0%Z.

(** "+5 if the age is under 30 days and a further +10 if it is under 7
    days", the age being [now - last_updated] in milliseconds. *)
Definition recency_constant (now : Z) (updated : option Z) : Z :=
  match updated with
  | Some at_ms =>
      ((if (now - at_ms <? 30 * 86400000)%Z then 5 else 0)
       + (if (now - at_ms <? 7 * 86400000)%Z then 10 else 0))%Z
  | None => 0%Z
  end.

(** The sum of the specification over a given tokenization. *)
Definition score_formula (cut : str -> list str) (now : Z) (query : str)
                         (r : SearchResult) : Q :=
  (score r
   + inject_Z (token_boost (toLowerCase (text_of (title r)))
                 (long_tokens cut query))
   + inject_Z (phrase_boost query r)
   + inject_Z (priority_constant (source r))
   + inject_Z (recency_constant now (last_updated r)))%Q.

(** The score as the claim words it: whitespace-separated tokens. *)
Definition claimed_score : Z -> str -> SearchResult -> Q :=
  score_formula split_whitespace.

(** The score over tokens separated by the space character. *)
Definition space_separated_score : Z -> str -> SearchResult -> Q :=
  score_formula (split_char space).

(** The title of the result is a string. *)
Definition titled (r : SearchResult) : Prop := title r <> None.

(** "the input result with its score updated": [ranked] has the final
    score of [r] as its score, and every other field as [r] has it. *)
Definition rescored_as (now : Z) (query : str) (r ranked : SearchResult)
  : Prop :=
  id ranked = id r /\ title ranked = title r /\ url ranked = url r
  /\ snippet ranked = snippet r /\ content ranked = content r
  /\ source ranked = source r /\ category ranked = category r
  /\ section ranked = section r /\ last_updated ranked = last_updated r
  /\ metadata ranked = metadata r
  /\ (score ranked == space_separated_score now query r)%Q.

End RankerSpec.

Import RankerSpec.

(** ** Text normalizer *)

Module NormalizerSpec.

(** The text has a tag: a [<] with a [>] somewhere after it. *)
Fixpoint contains_tag (s : str) : bool :=
  match s with
  | [] => false
  | c :: r =>
      (ascii_eqb c lt_char && existsb (ascii_eqb gt_char) r)
      || contains_tag r
  end.

(** The text spells one of the six entities. *)
Definition contains_entity (s : str) : bool :=
  existsb (fun e => includes s (fst e)) entities.

(** Every white-space code unit of the text is a space character that
    stands alone: the next code unit, if any, is not white space. *)
Fixpoint single_spaced (s : str) : bool :=
  match s with
  | [] => true
  | c :: r =>
      (if is_whitespace c
       then ascii_eqb c space
            && match r with
               | c' :: _ => negb (is_whitespace c')
               | [] => true
               end
       else true)
      && single_spaced r
  end.

(** The text has a space, and its last space is at index [i]. *)
Definition last_space (s : str) (i : nat) : Prop :=
  nth_error s i = Some space
  /\ forall j, i < j -> nth_error s j <> Some space.


End NormalizerSpec.

Import NormalizerSpec.

(** ** Handler *)

Module HandlerSpec.

(** "the query is missing, not a string, or has trimmed length under
    2" *)
Definition invalid_query (q : option json) : Prop :=
  match q with
  | None => True
  | Some (JStr s) => length (trim s) < 2
  | Some _ => True
  end.

(** "the request is valid": its query is the string [q], of trimmed
    length 2 or more *)
Definition valid_query (received : option json) (q : str) : Prop :=
  received = Some (JStr q) /\ 2 <= length (trim q).


(** "[c] is the rounded-up share": the least integer that is not below
    [tenths] tenths of [limit]. *)
Definition rounded_up (tenths limit c : Z) : Prop :=
  (10 * (c - 1) < tenths * limit <= 10 * c)%Z.


(** What a settled adapter contributes to the merged list. *)
Definition contribution {A : Type} (s : Settled (list A)) : list A :=
  match s with
  | Fulfilled value => value
  | Rejected _ => []
  end.

Definition limit_of (req : SearchRequest) : Z :=
  match limit req with Some l => l | None => 10%Z end.

(** The [sources] of the request are a list: the field is absent, or it
    is an array. *)
Definition sources_listed (req : SearchRequest) : Prop :=
  match sources req with
  | None | Some (JArr _) => True
  | Some _ => False
  end.


(** The strings among the elements of an array. *)
Definition strings_of (items : list json) : list str :=
  flat_map (fun v => match v with JStr s => [s] | _ => [] end) items.

(** The tags that the [sources] of the request list: the three known
    tags when the field is absent. *)
Definition sources_of (req : SearchRequest) : list str :=
  match sources req with
  | None => [lit "zendesk"; lit "docs"; lit "knowledge_base"]
  | Some (JArr items) => strings_of items
  | Some _ => []
  end.


(** What the adapters contributed to a series of invocations, in the
    order of the invocations. *)
Definition gathered
             (adapter : str -> str -> Z -> Settled (list SearchResult))
             (calls : list AdapterCall) : list SearchResult :=
  flat_map (fun call => contribution (adapter (call_source call)
                                              (call_query call)
                                              (call_limit call)))
           calls.

Definition reply_results (reply : Reply) : list SearchResult :=
  match reply with
  | Status200 body => results body
  | Status400 _ | Status500 _ => []
  end.

End HandlerSpec.

Import HandlerSpec.

(** The invocations of a request whose [sources] are a list and whose
    query is [q]. *)
Definition invocations (req : SearchRequest) (q : str) : list AdapterCall :=
  map (fun p => mkCall (fst p) q (snd p))
      (listed_plan (sources_of req) (limit_of req)).

(** ** Doubles and exact arithmetic *)

Module DoubleChecks.






End DoubleChecks.

Import DoubleChecks.

(** ** Adapters *)

Module AdapterSpec.



End AdapterSpec.

Import AdapterSpec.

Module DocsSpec.

(** "the document has both a title and a URL" *)
Definition has_title_and_url (d : Doc) : bool :=
  negb (missing (t d)) && negb (missing (u d)).

(** "for each query word, +20 if the title contains that word and +10
    if the breadcrumb text contains it" *)
Fixpoint word_points (titleLower bc : str) (words : list str) : Z :=
  match words with
  | [] => 0%Z
  | word :: rest =>
      ((if includes titleLower word then 20 else 0)
       + (if includes bc word then 10 else 0)
       + word_points titleLower bc rest)%Z
  end.

(** The lexical score of a document for a phrase and a list of words. *)
Definition lexical_formula (phrase : str) (words : list str) (d : Doc)
  : Z :=
  ((if includes (toLowerCase (text_of (t d))) phrase then 100 else 0)
   + (if includes (breadcrumbText d) phrase then 50 else 0)
   + word_points (toLowerCase (text_of (t d))) (breadcrumbText d) words)%Z.

(** The words longer than 2 characters of a text. *)
Definition long_words (text : str) : list str :=
  filter (fun word => 2 <? length word) (split_whitespace text).

(** The lexical score as the claim words it: the phrase is the
    lowercase full query. *)
Definition claimed_lexical (query : str) (d : Doc) : Z :=
  lexical_formula (toLowerCase query) (long_words (toLowerCase query)) d.

(** The lexical score over the lowercase query with the white space at
    its two ends removed. *)
Definition trimmed_lexical (query : str) (d : Doc) : Z :=
  lexical_formula (trim (toLowerCase query))
                  (long_words (trim (toLowerCase query))) d.

End DocsSpec.

Import DocsSpec.

(** The results the documentation adapter computes from an index, before
    it sorts and cuts them. *)
Definition docs_scored (world : World) (sep query : str)
                       (documents : list Doc) : list SearchResult :=
  map (fun d => docs_result world sep d (trimmed_lexical query d))
      (filter (fun d => has_title_and_url d
                        && (0 <? trimmed_lexical query d)%Z)
              documents).


(** Every relevance score the help-center endpoint sends is at least 0. *)
Definition upstream_scores_nonnegative (world : World) : Prop :=
  forall q n articles a s,
    help_center_search world q n = Response (ZendeskResults articles) ->
    In a articles ->
    article_score a = Some s ->
    (0 <= s)%Q.

(* ================================================================== *)
(** * Scenarios *)
(* ================================================================== *)

Module Scenarios.

Definition arrow : str := lit " > ".

Definition reset_article : Article :=
  {| article_id := 7%Z;
     article_title := Some (lit "How to reset your password");
     html_url := lit "https://example.zendesk.com/hc/articles/7";
     body := Some (lit "<p>Open the login page &amp; choose Forgot.</p>");
     article_score := Some 10%Q;
     section_id := None;
     updated_at := None;
     locale := JStr (lit "en-us");
     created_at := JNull |}.

Definition guide_doc : Doc :=
  {| t := Some (lit "Password Reset Guide");
     u := Some (lit "/account/password-reset");
     b := Some [lit "Account"; lit "Security"];
     i := 3%Z |}.

Definition untitled_doc : Doc :=
  {| t := None; u := Some (lit "/misc"); b := None; i := 4%Z |}.

(** The help-center search times out for the plain query and answers
    the keyword-biased one; the index has two documents. *)
Definition outage : World :=
  {| help_center_search := fun q per_page =>
       if str_eqb q (lit "password reset")
       then Failure (lit "timeout of 5000ms exceeded")
       else Response (ZendeskResults [reset_article]);
     search_index := Response (IndexDocuments [untitled_doc; guide_doc]);
     clock_docs := 1000%Z;
     clock_rank := 1200%Z |}.

Definition request (q : str) (l : Z) : SearchRequest :=
  {| query := Some (JStr q); limit := Some l; sources := None |}.


(** An article whose upstream relevance score is negative. *)
Definition downvoted_article : Article :=
  {| article_id := 9%Z;
     article_title := Some (lit "Billing overview");
     html_url := lit "https://example.zendesk.com/hc/articles/9";
     body := None;
     article_score := Some (-50)%Q;
     section_id := Some 12%Z;
     updated_at := None;
     locale := JStr (lit "en-us");
     created_at := JNull |}.

Definition negative_upstream : World :=
  {| help_center_search := fun _ _ =>
       Response (ZendeskResults [downvoted_article]);
     search_index := Failure (lit "Request failed with status code 503");
     clock_docs := 1000%Z;
     clock_rank := 1200%Z |}.



Definition healthy : World :=
  {| help_center_search := fun _ _ =>
       Response (ZendeskResults [reset_article]);
     search_index := Response (IndexDocuments [guide_doc]);
     clock_docs := 1000%Z;
     clock_rank := 1200%Z |}.

End Scenarios.

Import Scenarios.

(** A text of 104 code units whose only space is at index 63, which is
    70% of 90 exactly. *)
Definition space_at_63 : str :=
  repeat (ascii_of_nat 97) 63 ++ [space] ++ repeat (ascii_of_nat 98) 40.

(** A help-center result titled "Password help" and the query
    "reset<TAB>password", whose two words a tabulation separates. *)
Definition tab_query : str :=
  lit "reset" ++ [ascii_of_nat 9] ++ lit "password".

Definition password_help : SearchResult :=
  {| id := lit "zendesk_1"; title := Some (lit "Password help");
     url := lit "https://example.zendesk.com/1";
     snippet := lit "No preview available"; content := None;
     score := 0%Q; source := tag_zendesk; category := None;
     section := JNull; last_updated := None; metadata := [] |}.

(** ** Further vocabulary *)


(** The tag and the id prefix of the results of the adapter behind a
    known tag. *)
Definition tagged (r : SearchResult) : Prop :=
  (source r = lit "zendesk" /\ startsWith (lit "zendesk_") (id r) = true)
  \/ (source r = lit "docs" /\ startsWith (lit "docs_") (id r) = true)
  \/ (source r = lit "knowledge_base"
      /\ startsWith (lit "kb_") (id r) = true).

(* ================================================================== *)
(** * The text normalizer on examples *)
(* ================================================================== *)

Example strip_demo :
  stripHtmlAndCreateSnippet
    (Some (lit "<p>Reset  your&nbsp;password &amp; log in</p>")) 200
  = lit "Reset your password & log in".
Proof. vm_compute. reflexivity. Qed.

Example strip_trunc_demo :
  stripHtmlAndCreateSnippet (Some (lit "alpha beta gamma delta")) 12
  = lit "alpha beta..." /\
  stripHtmlAndCreateSnippet (Some (lit "alphabetagamma delta")) 12
  = lit "alphabetagam...".
Proof. vm_compute. split; reflexivity. Qed.

(* ================================================================== *)
(** * Properties of [Array.prototype.sort] as modelled *)
(* ================================================================== *)

Section JsSortFacts.
Variable A : Type.
Variable key : A -> Q.

Lemma desc_le (x y : A) :
  Qle_bool (desc key x y) 0 = true <-> (key y <= key x)%Q.
Proof.
  unfold desc. rewrite Qle_bool_iff. split; intro H.
  - apply Qplus_le_l with (z := (- key x)%Q).
    rewrite Qplus_opp_r. exact H.
  - apply Qplus_le_l with (z := (- key x)%Q) in H.
    rewrite Qplus_opp_r in H. exact H.
Qed.

Lemma sort_insert_perm (x : A) (l : list A) :
  Permutation (x :: l) (sort_insert (desc key) x l).
Proof.
  induction l as [| y l IH]; simpl.
  - apply Permutation_refl.
  - destruct (Qle_bool (desc key x y) 0).
    + apply Permutation_refl.
    + apply perm_trans with (y :: x :: l).
      * apply perm_swap.
      * apply perm_skip. exact IH.
Qed.

Lemma js_sort_perm (l : list A) : Permutation l (js_sort (desc key) l).
Proof.
  induction l as [| x l IH]; simpl.
  - apply perm_nil.
  - apply perm_trans with (x :: js_sort (desc key) l).
    + apply perm_skip. exact IH.
    + apply sort_insert_perm.
Qed.

Lemma sort_insert_In (x z : A) (l : list A) :
  In z (sort_insert (desc key) x l) -> z = x \/ In z l.
Proof.
  intro H.
  apply Permutation_in with (l' := x :: l) in H.
  - destruct H as [H | H]; [left; symmetry; exact H | right; exact H].
  - apply Permutation_sym, sort_insert_perm.
Qed.

Lemma sort_insert_sorted (x : A) (l : list A) :
  StronglySorted (not_below key) l ->
  StronglySorted (not_below key) (sort_insert (desc key) x l).
Proof.
  induction 1 as [| y l Hs IH Hall]; simpl.
  - constructor; constructor.
  - destruct (Qle_bool (desc key x y) 0) eqn:E.
    + apply desc_le in E.
      constructor.
      * constructor; assumption.
      * constructor; [exact E |].
        rewrite Forall_forall in Hall |- *.
        intros z Hz. unfold not_below in *.
        apply Qle_trans with (key y); [apply Hall; exact Hz | exact E].
    + constructor; [exact IH |].
      rewrite Forall_forall in Hall |- *.
      intros z Hz. apply sort_insert_In in Hz.
      destruct Hz as [-> | Hz]; [| apply Hall; exact Hz].
      unfold not_below.
      destruct (Qlt_le_dec (key x) (key y)) as [Hlt | Hle].
      * apply Qlt_le_weak. exact Hlt.
      * apply desc_le in Hle. rewrite Hle in E. discriminate E.
Qed.

Lemma js_sort_sorted (l : list A) :
  StronglySorted (not_below key) (js_sort (desc key) l).
Proof.
  induction l as [| x l IH]; simpl.
  - constructor.
  - apply sort_insert_sorted. exact IH.
Qed.

(** Insertion never moves an element across one with the same key. *)
Lemma sort_insert_stable (q : Q) (x : A) (l : list A) :
  filter (same_key key q) (sort_insert (desc key) x l)
  = filter (same_key key q) (x :: l).
Proof.
  induction l as [| y l IH]; [reflexivity |].
  cbn [sort_insert].
  destruct (Qle_bool (desc key x y) 0) eqn:E; [reflexivity |].
  cbn [filter] in IH |- *. rewrite IH.
  destruct (same_key key q x) eqn:Ex; [| reflexivity].
  destruct (same_key key q y) eqn:Ey; [| reflexivity].
  unfold same_key in Ex, Ey.
  apply Qeq_bool_iff in Ex. apply Qeq_bool_iff in Ey.
  assert (Hle : (key y <= key x)%Q).
  { rewrite Ex, Ey. apply Qle_refl. }
  apply desc_le in Hle. rewrite Hle in E. discriminate E.
Qed.

Lemma js_sort_stable (q : Q) (l : list A) :
  filter (same_key key q) (js_sort (desc key) l) = filter (same_key key q) l.
Proof.
  induction l as [| x l IH]; [reflexivity |].
  cbn [js_sort fold_right].
  rewrite sort_insert_stable.
  cbn [filter]. fold (js_sort (desc key) l). rewrite IH. reflexivity.
Qed.

Lemma js_sort_length (l : list A) : length (js_sort (desc key) l) = length l.
Proof. symmetry. apply Permutation_length, js_sort_perm. Qed.

End JsSortFacts.

(* ================================================================== *)
(** * Ranker: proofs *)
(* ================================================================== *)

(** Sorting the images under [f] is sorting by the key of the image. *)
Lemma sort_insert_map (A B : Type) (key : B -> Q) (f : A -> B)
                      (x : A) (l : list A) :
  sort_insert (desc key) (f x) (map f l)
  = map f (sort_insert (desc (fun a => key (f a))) x l).
Proof.
  induction l as [| y l IH]; [reflexivity |].
  cbn [map sort_insert].
  change (desc (fun a => key (f a)) x y) with (desc key (f x) (f y)).
  destruct (Qle_bool (desc key (f x) (f y)) 0); [reflexivity |].
  cbn [map]. rewrite IH. reflexivity.
Qed.

Lemma js_sort_map (A B : Type) (key : B -> Q) (f : A -> B) (l : list A) :
  js_sort (desc key) (map f l)
  = map f (js_sort (desc (fun a => key (f a))) l).
Proof.
  induction l as [| x l IH]; [reflexivity |].
  cbn [map js_sort fold_right].
  fold (js_sort (desc key) (map f l)).
  fold (js_sort (desc (fun a => key (f a))) l).
  rewrite IH. apply sort_insert_map.
Qed.

(** ** The callback either throws or returns the re-scored result *)

Lemma array_map_returns (A B : Type) (callback : A -> Outcome B)
                        (xs : list A) (ys : list B) :
  array_map callback xs = Returns ys ->
  Forall2 (fun x y => callback x = Returns y) xs ys.
Proof.
  revert ys. induction xs as [| x xs IH]; intros ys H.
  - injection H as <-. constructor.
  - cbn [array_map] in H. unfold and_then in H.
    destruct (callback x) as [y | message] eqn:Ex; [| discriminate H].
    destruct (array_map callback xs) as [rest | message]; [| discriminate H].
    injection H as <-. constructor; [exact Ex | apply IH; reflexivity].
Qed.

Lemma array_map_total (A B : Type) (callback : A -> Outcome B) (g : A -> B)
                      (xs : list A) :
  (forall x, In x xs -> callback x = Returns (g x)) ->
  array_map callback xs = Returns (map g xs).
Proof.
  induction xs as [| x xs IH]; intro H; [reflexivity |].
  cbn [array_map map]. unfold and_then.
  rewrite (H x (or_introl eq_refl)).
  rewrite IH; [reflexivity |].
  intros y Hy. apply H. right. exact Hy.
Qed.

Lemma rank_callback_titled (now : Z) (q : str) (r : SearchResult) :
  titled r -> rank_callback now q r = Returns (rescore now q r).
Proof.
  unfold titled, rank_callback. destruct (title r); [reflexivity |].
  intro H. exfalso. apply H. reflexivity.
Qed.

Lemma rank_callback_returns (now : Z) (q : str) (r r' : SearchResult) :
  rank_callback now q r = Returns r' -> titled r /\ r' = rescore now q r.
Proof.
  unfold titled, rank_callback. destruct (title r); [| discriminate].
  intro H. injection H as <-. split; [discriminate | reflexivity].
Qed.

Lemma rankResults_titled (now : Z) (results : list SearchResult) (q : str) :
  Forall titled results ->
  rankResults now results q
  = Returns (js_sort by_score_desc (map (rescore now q) results)).
Proof.
  intro H. unfold rankResults.
  rewrite (@array_map_total _ _ (rank_callback now q) (rescore now q)).
  - reflexivity.
  - rewrite Forall_forall in H. intros r Hr.
    apply rank_callback_titled, H, Hr.
Qed.

Lemma rankResults_returns (now : Z) (results ranked : list SearchResult)
                          (q : str) :
  rankResults now results q = Returns ranked ->
  Forall titled results
  /\ ranked = js_sort by_score_desc (map (rescore now q) results).
Proof.
  unfold rankResults, and_then. intro H.
  destruct (array_map (rank_callback now q) results) as [rescored |] eqn:E;
    [| discriminate H].
  injection H as <-. apply array_map_returns in E.
  assert (Hall : Forall titled results
                 /\ rescored = map (rescore now q) results).
  { induction E as [| r r' results rescored Hr _ [IHt IHm]].
    - split; [constructor | reflexivity].
    - apply rank_callback_returns in Hr. destruct Hr as [Ht ->].
      split; [constructor; assumption |].
      cbn [map]. rewrite IHm. reflexivity. }
  destruct Hall as [Ht ->]. split; [exact Ht | reflexivity].
Qed.

(** The ranker returns a list exactly when every title is a string. *)
Lemma rankResults_returns_iff (now : Z) (results : list SearchResult)
                              (q : str) :
  Forall titled results
  <-> exists ranked, rankResults now results q = Returns ranked.
Proof.
  split.
  - intro H. eexists. apply rankResults_titled. exact H.
  - intros [ranked H]. apply rankResults_returns in H. apply H.
Qed.

Lemma rankResults_In (now : Z) (results ranked : list SearchResult)
                     (q : str) (r : SearchResult) :
  rankResults now results q = Returns ranked ->
  (In r ranked <-> exists r0, In r0 results /\ r = rescore now q r0).
Proof.
  intro Hr. apply rankResults_returns in Hr. destruct Hr as [_ ->].
  change by_score_desc with (desc score).
  split.
  - intro H.
    apply Permutation_in with (l' := map (rescore now q) results) in H;
      [| apply Permutation_sym, js_sort_perm].
    apply in_map_iff in H. destruct H as (r0 & <- & Hin).
    exists r0. split; [exact Hin | reflexivity].
  - intros (r0 & Hin & ->).
    apply Permutation_in with (l := map (rescore now q) results);
      [apply js_sort_perm | apply in_map; exact Hin].
Qed.


Lemma rankResults_sorted (now : Z) (results ranked : list SearchResult)
                         (q : str) :
  rankResults now results q = Returns ranked ->
  StronglySorted (fun a c => (score c <= score a)%Q) ranked.
Proof.
  intro Hr. apply rankResults_returns in Hr. destruct Hr as [_ ->].
  change by_score_desc with (desc score). apply (js_sort_sorted score).
Qed.

Lemma or_zero_some (q : Q) : (or_zero (Some q) == q)%Q.
Proof.
  unfold or_zero. destruct (Qeq_bool q 0) eqn:E; [| reflexivity].
  apply Qeq_bool_iff in E. symmetry. exact E.
Qed.

Lemma token_boost_count (titleLower : str) (tokens : list str) :
  (Z.of_nat (length (filter (fun term => includes titleLower term) tokens))
   * 20)%Z
  = token_boost titleLower tokens.
Proof.
  induction tokens as [| token rest IH]; [reflexivity |].
  cbn [filter token_boost].
  destruct (includes titleLower token); cbn [length]; lia.
Qed.

Lemma source_boost_constant (r : SearchResult) :
  source_boost r = priority_constant (source r).
Proof.
  unfold source_boost, priority_constant, sourcePriority, lookup.
  unfold tag_zendesk, tag_knowledge_base, tag_docs.
  assert (sym : forall a c : str, str_eqb a c = str_eqb c a).
  { induction a as [| x a IH]; destruct c as [| y c]; try reflexivity.
    cbn [str_eqb]. unfold ascii_eqb. rewrite Ascii.eqb_sym, IH. reflexivity. }
  rewrite !(sym (lit _) (source r)).
  destruct (str_eqb (source r) (lit "zendesk")); [reflexivity |].
  destruct (str_eqb (source r) (lit "knowledge_base")); [reflexivity |].
  destruct (str_eqb (source r) (lit "docs")); reflexivity.
Qed.

Lemma recency_boost_constant (now : Z) (updated : option Z) :
  recency_boost now updated = recency_constant now updated.
Proof. reflexivity. Qed.

Lemma final_score_formula (now : Z) (query : str) (r : SearchResult) :
  (final_score now query r == space_separated_score now query r)%Q.
Proof.
  unfold final_score, space_separated_score, score_formula.
  unfold titleMatches, queryTerms, long_tokens, phrase_match, phrase_boost.
  rewrite token_boost_count, source_boost_constant, recency_boost_constant.
  pose proof (or_zero_some (score r)) as Hcarried.
  destruct (includes (toLowerCase (text_of (title r))) (toLowerCase query));
    rewrite Hcarried.
  - reflexivity.
  - change (inject_Z 0) with 0%Q. ring.
Qed.

(** What the callback returns is the input result with its score
    updated. *)
Lemma rescore_rescored_as (now : Z) (query : str) (r : SearchResult) :
  rescored_as now query r (rescore now query r).
Proof.
  unfold rescored_as, rescore, with_score.
  cbn [id title url snippet content source category section last_updated
       metadata score].
  repeat (split; [reflexivity |]).
  apply final_score_formula.
Qed.

(** C2 (as amended). The final score the ranker gives a result is its
    carried-in score, plus 20 for each case-folded query token longer
    than 2 characters that the lowercased title contains, the tokens
    being the pieces of the query between space characters (the source
    splits on [' '], not on white space in general), plus a flat 30 when
    the lowercased title contains the whole lowercased query, plus the
    source-priority constant (zendesk 10, knowledge_base 8, docs 6, any
    other tag 0), plus 5 when the age of [last_updated] is under 30 days
    and a further 10 when it is under 7 days.  The ranker returns a list
    when every title is a string, and the list holds the input results
    with these scores. *)
Theorem rank_score_formula (now : Z) (results : list SearchResult)
                           (query : str) :
  (forall r,
     (score (rescore now query r) == space_separated_score now query r)%Q)
  /\ (Forall titled results
      <-> exists ranked_list,
            rankResults now results query = Returns ranked_list)
  /\ (forall ranked_list,
        rankResults now results query = Returns ranked_list ->
        forall ranked,
          In ranked ranked_list
          <-> exists r, In r results /\ ranked = rescore now query r).
Proof.
  split; [| split].
  - intro r. unfold rescore, with_score. cbn [score].
    apply final_score_formula.
  - apply rankResults_returns_iff.
  - intros ranked_list H ranked. apply rankResults_In. exact H.
Qed.

(** C2, counterexample.  On the query "reset<TAB>password" the source
    finds one token, "reset<TAB>password", which the title does not
    contain: the result scores 10 (its source priority).  With
    whitespace-separated tokens, "password" is a token the title
    contains and the score would be 30. *)
Lemma rank_score_whitespace_counterexample :
  queryTerms tab_query = [tab_query]
  /\ long_tokens split_whitespace tab_query = [lit "reset"; lit "password"]
  /\ Qeq_bool (score (rescore 0 tab_query password_help)) 10 = true
  /\ Qeq_bool (claimed_score 0 tab_query password_help) 30 = true
  /\ Qeq_bool (score (rescore 0 tab_query password_help))
              (claimed_score 0 tab_query password_help) = false.
Proof. vm_compute. repeat split; reflexivity. Qed.

Lemma Qeq_bool_left (a c s : Q) :
  (a == c)%Q -> Qeq_bool a s = Qeq_bool c s.
Proof.
  intro H.
  destruct (Qeq_bool a s) eqn:Ea; destruct (Qeq_bool c s) eqn:Ec;
    try reflexivity.
  - apply Qeq_bool_iff in Ea. rewrite H in Ea.
    apply Qeq_bool_iff in Ea. rewrite Ea in Ec. discriminate Ec.
  - apply Qeq_bool_iff in Ec. rewrite <- H in Ec.
    apply Qeq_bool_iff in Ec. rewrite Ec in Ea. discriminate Ea.
Qed.

Lemma Forall2_map_right (A B : Type) (R : A -> B -> Prop) (f : A -> B)
                        (l : list A) :
  (forall x, R x (f x)) -> Forall2 R l (map f l).
Proof.
  intro H. induction l as [| x l IH]; cbn [map]; constructor;
    [apply H | exact IH].
Qed.

(** C3. The ranker returns a list exactly when every title is a string.
    The list it returns holds the input results, each with its score
    replaced by the final score of the formula and nothing else
    changed; it is in an order that is non-increasing in the final
    score, and results with the same final score stay in their input
    order. *)
Theorem rank_sorted_stable (now : Z) (results : list SearchResult)
                           (query : str) :
  (Forall titled results
   <-> exists ranked, rankResults now results query = Returns ranked)
  /\ forall ranked,
       rankResults now results query = Returns ranked ->
       exists order,
         Permutation results order
         /\ Forall2 (rescored_as now query) order ranked
         /\ StronglySorted (fun a b => (score b <= score a)%Q) ranked
         /\ forall s : Q,
              filter (fun r => Qeq_bool (space_separated_score now query r) s)
                     order
              = filter (fun r => Qeq_bool (space_separated_score now query r) s)
                       results.
Proof.
  split; [apply rankResults_returns_iff |].
  intros ranked H.
  pose proof (@rankResults_sorted now results ranked query H) as Hsorted.
  apply rankResults_returns in H. destruct H as [_ ->].
  change by_score_desc with (desc score) in *.
  rewrite js_sort_map in *.
  exists (js_sort (desc (fun r => score (rescore now query r))) results).
  split; [apply js_sort_perm |].
  split; [apply Forall2_map_right, rescore_rescored_as |].
  split; [exact Hsorted |].
  intro s.
  pose proof (js_sort_stable (fun r => score (rescore now query r)) s results)
    as Hstable.
  unfold same_key in Hstable.
  assert (Hkey : forall r,
             Qeq_bool (score (rescore now query r)) s
             = Qeq_bool (space_separated_score now query r) s).
  { intro r. apply Qeq_bool_left.
    unfold rescore, with_score. cbn [score]. apply final_score_formula. }
  rewrite <- !(filter_ext _ _ Hkey). exact Hstable.
Qed.

(* ================================================================== *)
(** * Text normalizer: proofs *)
(* ================================================================== *)

Lemma strip_tags_plain (s : str) :
  contains_tag s = false -> strip_tags s = s.
Proof.
  unfold strip_tags.
  induction s as [| c r IH]; [reflexivity |].
  cbn [contains_tag strip_tags_from]. intro H.
  apply orb_false_iff in H. destruct H as [Hc Hr].
  rewrite Hc, (IH Hr). reflexivity.
Qed.

Lemma includes_cons_false (c : ascii) (s p : str) :
  includes (c :: s) p = false ->
  startsWith p (c :: s) = false /\ includes s p = false.
Proof.
  cbn [includes]. intro H. apply orb_false_iff in H. exact H.
Qed.

Lemma replaceAll_absent (p r s : str) :
  includes s p = false -> replaceAll p r s = s.
Proof.
  unfold replaceAll.
  induction s as [| c s IH]; [reflexivity |].
  intro H. apply includes_cons_false in H. destruct H as [Hhere Hrest].
  cbn [replaceAll_from]. rewrite Hhere, (IH Hrest). reflexivity.
Qed.

Lemma decode_entities_plain (s : str) :
  contains_entity s = false -> decode_entities s = s.
Proof.
  unfold contains_entity, decode_entities, entities.
  cbn [existsb fold_left fst snd]. intro H.
  repeat (apply orb_false_iff in H; destruct H as [?E H]).
  rewrite (@replaceAll_absent _ _ _ E), (@replaceAll_absent _ _ _ E0),
    (@replaceAll_absent _ _ _ E1), (@replaceAll_absent _ _ _ E2),
    (@replaceAll_absent _ _ _ E3), (@replaceAll_absent _ _ _ E4).
  reflexivity.
Qed.

Lemma collapse_single_spaced (s : str) :
  single_spaced s = true -> collapse_whitespace s = s.
Proof.
  induction s as [| c r IH]; [reflexivity |].
  cbn [single_spaced collapse_whitespace]. intro H.
  apply andb_true_iff in H. destruct H as [Hc Hr].
  specialize (IH Hr).
  destruct (is_whitespace c) eqn:Ews.
  - apply andb_true_iff in Hc. destruct Hc as [Hsp Hnext].
    unfold ascii_eqb in Hsp. apply Ascii.eqb_eq in Hsp. subst c.
    destruct r as [| c' r']; [reflexivity |].
    apply negb_true_iff in Hnext. rewrite Hnext, IH. reflexivity.
  - rewrite IH. reflexivity.
Qed.

Lemma trimStart_collapse (s : str) :
  trimStart (collapse_whitespace s) = collapse_whitespace (trimStart s).
Proof.
  induction s as [| c r IH]; [reflexivity |].
  cbn [collapse_whitespace trimStart].
  destruct (is_whitespace c) eqn:Ews.
  - destruct r as [| c' r']; [reflexivity |].
    destruct (is_whitespace c') eqn:Ews'; [exact IH |].
    cbn [trimStart]. change (is_whitespace space) with true. cbv iota.
    exact IH.
  - cbn [trimStart]. rewrite Ews. cbn [collapse_whitespace].
    rewrite Ews. reflexivity.
Qed.

Lemma trimEnd_cons (c : ascii) (r : str) :
  trimEnd (c :: r)
  = match trimEnd r with
    | [] => if is_whitespace c then [] else [c]
    | _ :: _ => c :: trimEnd r
    end.
Proof. cbn [trimEnd]. destruct (trimEnd r); reflexivity. Qed.

Lemma trimEnd_keeps (c : ascii) (r : str) :
  is_whitespace c = false -> trimEnd (c :: r) = c :: trimEnd r.
Proof.
  intro H. rewrite trimEnd_cons, H. destruct (trimEnd r); reflexivity.
Qed.

Lemma collapse_keeps (c : ascii) (r : str) :
  is_whitespace c = false ->
  collapse_whitespace (c :: r) = c :: collapse_whitespace r.
Proof. intro H. cbn [collapse_whitespace]. rewrite H. reflexivity. Qed.

Lemma trimEnd_collapse (s : str) :
  trimEnd (collapse_whitespace s) = collapse_whitespace (trimEnd s).
Proof.
  induction s as [| c r IH]; [reflexivity |].
  destruct (is_whitespace c) eqn:Ews.
  - destruct r as [| c' r'].
    + cbn [collapse_whitespace trimEnd]. rewrite Ews.
      change (is_whitespace space) with true. reflexivity.
    + destruct (is_whitespace c') eqn:Ews'.
      * assert (Hc : collapse_whitespace (c :: c' :: r')
                     = collapse_whitespace (c' :: r')).
        { cbn [collapse_whitespace]. rewrite Ews, Ews'. reflexivity. }
        rewrite Hc, IH.
        rewrite (trimEnd_cons c (c' :: r')).
        destruct (trimEnd (c' :: r')) as [| k kept] eqn:Ek.
        -- rewrite Ews. reflexivity.
        -- rewrite trimEnd_cons in Ek.
           destruct (trimEnd r') as [| k' kept'] eqn:Ek'.
           ++ rewrite Ews' in Ek. discriminate Ek.
           ++ injection Ek as <- <-.
              cbn [collapse_whitespace]. rewrite Ews, Ews'. reflexivity.
      * assert (Hc : collapse_whitespace (c :: c' :: r')
                     = space :: collapse_whitespace (c' :: r')).
        { cbn [collapse_whitespace]. rewrite Ews, Ews'. reflexivity. }
        rewrite Hc.
        rewrite (trimEnd_cons space), IH, (trimEnd_cons c (c' :: r')).
        rewrite (@trimEnd_keeps c' r' Ews').
        rewrite (@collapse_keeps c' (trimEnd r') Ews').
        cbn [collapse_whitespace]. rewrite Ews, Ews'. reflexivity.
  - rewrite (@collapse_keeps c r Ews), (@trimEnd_keeps c r Ews),
      (@trimEnd_keeps c (collapse_whitespace r) Ews),
      (@collapse_keeps c (trimEnd r) Ews), IH.
    reflexivity.
Qed.

(** Collapsing white space and trimming commute. *)
Lemma trim_collapse (s : str) :
  trim (collapse_whitespace s) = collapse_whitespace (trim s).
Proof.
  unfold trim. rewrite trimStart_collapse, trimEnd_collapse. reflexivity.
Qed.

Lemma trimStart_length (s : str) : length (trimStart s) <= length s.
Proof.
  induction s as [| c r IH]; [apply le_n |].
  cbn [trimStart]. destruct (is_whitespace c); cbn [length]; lia.
Qed.

Lemma trimEnd_length (s : str) : length (trimEnd s) <= length s.
Proof.
  induction s as [| c r IH]; [apply le_n |].
  rewrite trimEnd_cons.
  destruct (trimEnd r); [destruct (is_whitespace c) |]; cbn [length] in *; lia.
Qed.

Lemma trim_length (s : str) : length (trim s) <= length s.
Proof.
  unfold trim.
  apply Nat.le_trans with (length (trimStart s));
    [apply trimEnd_length | apply trimStart_length].
Qed.

Lemma clean_plain (s : str) :
  contains_tag s = false ->
  contains_entity s = false ->
  single_spaced (trim s) = true ->
  clean s = trim s.
Proof.
  intros Htag Hent Hws. unfold clean.
  rewrite (strip_tags_plain s Htag), (decode_entities_plain s Hent).
  rewrite trim_collapse. apply collapse_single_spaced. exact Hws.
Qed.

Lemma truncate_short (cleanText : str) (maxLength : nat) :
  length cleanText <= maxLength -> truncate cleanText maxLength = cleanText.
Proof.
  intro H. unfold truncate.
  destruct (maxLength <? length cleanText) eqn:E; [| reflexivity].
  apply Nat.ltb_lt in E. lia.
Qed.

Lemma snippet_of_text (c : ascii) (h : str) (maxLength : nat) :
  truncate (clean (c :: h)) maxLength <> [] ->
  stripHtmlAndCreateSnippet (Some (c :: h)) maxLength
  = truncate (clean (c :: h)) maxLength.
Proof.
  intro H. cbn [stripHtmlAndCreateSnippet].
  destruct (truncate (clean (c :: h)) maxLength); [contradiction | reflexivity].
Qed.

(** C8 (as amended). A text that has no tag, spells none of the six
    entities, is not blank, is shorter than [maxLength], and whose white
    space inside the trimmed text is single space characters only, comes
    back trimmed and otherwise unchanged. *)
Theorem normalize_plain_text (s : str) (maxLength : nat) :
  contains_tag s = false ->
  contains_entity s = false ->
  single_spaced (trim s) = true ->
  trim s <> [] ->
  length s < maxLength ->
  stripHtmlAndCreateSnippet (Some s) maxLength = trim s.
Proof.
  intros Htag Hent Hws Hblank Hlen.
  destruct s as [| c h]; [exfalso; apply Hblank; reflexivity |].
  assert (Ht : truncate (clean (c :: h)) maxLength = trim (c :: h)).
  { rewrite (clean_plain _ Htag Hent Hws).
    apply truncate_short.
    pose proof (trim_length (c :: h)). lia. }
  rewrite snippet_of_text; rewrite Ht; [reflexivity | exact Hblank].
Qed.

Lemma normalize_plain_text_witness :
  stripHtmlAndCreateSnippet (Some (lit "  Reset your password ")) 200
  = lit "Reset your password".
Proof.
  apply (@normalize_plain_text (lit "  Reset your password ") 200).
  - reflexivity.
  - reflexivity.
  - reflexivity.
  - discriminate.
  - cbn. lia.
Defined.

(** C8, counterexample.  Three texts without markup and shorter than
    200: a run of two spaces inside the text is collapsed to one, an
    entity is decoded, and a blank text gives the placeholder; none of
    them comes back as the trimmed input. *)
Lemma normalize_plain_text_counterexample :
  contains_tag (lit "reset  password") = false
  /\ stripHtmlAndCreateSnippet (Some (lit "reset  password")) 200
     = lit "reset password"
  /\ trim (lit "reset  password") = lit "reset  password"
  /\ str_eqb (stripHtmlAndCreateSnippet (Some (lit "reset  password")) 200)
             (trim (lit "reset  password")) = false
  /\ stripHtmlAndCreateSnippet (Some (lit "Tom &amp; Jerry")) 200
     = lit "Tom & Jerry"
  /\ trim (lit "   ") = []
  /\ stripHtmlAndCreateSnippet (Some (lit "   ")) 200
     = lit "No preview available".
Proof. vm_compute. repeat split; reflexivity. Qed.


(** What [lastIndexOf(' ')] returns: the index of a space after which no
    other space occurs, or nothing when the text has no space. *)
Lemma lastIndexOf_space_from_spec (s : str) :
  forall k : nat,
    match lastIndexOf_space_from k s with
    | Some j =>
        k <= j
        /\ nth_error s (j - k) = Some space
        /\ forall m, j - k < m -> nth_error s m <> Some space
    | None => forall m, nth_error s m <> Some space
    end.
Proof.
  induction s as [| c r IH]; intro k; cbn [lastIndexOf_space_from].
  - intros m H. destruct m; discriminate H.
  - specialize (IH (S k)).
    destruct (lastIndexOf_space_from (S k) r) as [j |].
    + destruct IH as (Hk & Hnth & Hlast).
      split; [lia |]. split.
      * replace (j - k) with (S (j - S k)) by lia. exact Hnth.
      * intros m Hm. destruct m as [| m]; [lia |].
        cbn [nth_error]. apply Hlast. lia.
    + destruct (ascii_eqb c space) eqn:E.
      * unfold ascii_eqb in E. apply Ascii.eqb_eq in E. subst c.
        split; [lia |]. rewrite Nat.sub_diag. split; [reflexivity |].
        intros m Hm. destruct m as [| m]; [lia |].
        cbn [nth_error]. apply IH.
      * intros m. destruct m as [| m]; cbn [nth_error]; [| apply IH].
        intro H. injection H as ->.
        unfold ascii_eqb in E. rewrite Ascii.eqb_refl in E. discriminate E.
Qed.

Lemma lastIndexOf_space_bound (s : str) (j : nat) :
  lastIndexOf_space s = Some j -> j < length s.
Proof.
  unfold lastIndexOf_space. intro H.
  pose proof (lastIndexOf_space_from_spec s 0) as Hspec.
  rewrite H in Hspec. destruct Hspec as (_ & Hnth & _).
  rewrite Nat.sub_0_r in Hnth.
  apply nth_error_Some. rewrite Hnth. discriminate.
Qed.

Lemma lastIndexOf_space_last (s : str) (i : nat) :
  lastIndexOf_space s = Some i <-> last_space s i.
Proof.
  unfold lastIndexOf_space, last_space.
  pose proof (lastIndexOf_space_from_spec s 0) as Hspec.
  destruct (lastIndexOf_space_from 0 s) as [j |].
  - destruct Hspec as (_ & Hnth & Hlast). rewrite Nat.sub_0_r in Hnth.
    split.
    + intro H. injection H as <-. split; [exact Hnth |].
      intros m Hm. apply Hlast. lia.
    + intros [Hi Hafter].
      destruct (Nat.lt_trichotomy i j) as [Hlt | [-> | Hgt]].
      * exfalso. exact (Hafter j Hlt Hnth).
      * reflexivity.
      * exfalso. apply (Hlast i); [lia | exact Hi].
  - split; [discriminate |].
    intros [Hi _]. exfalso. exact (Hspec i Hi).
Qed.


(** ** The comparison with 70% of the bound, on doubles *)








(** C7, counterexample.  A text of 104 code units whose only space is at
    index 63, and a [maxLength] of 90.  The space lies at 70% of
    [maxLength] exactly, not beyond it, and the text should be cut at
    [maxLength]; but [90 * 0.7] is 62.99999999999999 on doubles, below
    63, and the snippet is cut at the space. *)
Lemma truncation_rule_counterexample :
  clean space_at_63 = space_at_63
  /\ length space_at_63 = 104
  /\ last_space (firstn 90 space_at_63) 63
  /\ 10 * 63 = 7 * 90
  /\ stripHtmlAndCreateSnippet (Some space_at_63) 90
     = firstn 63 space_at_63 ++ lit "..."
  /\ stripHtmlAndCreateSnippet (Some space_at_63) 90
     <> firstn 90 space_at_63 ++ lit "...".
Proof.
  split; [vm_compute; reflexivity |].
  split; [reflexivity |].
  split; [apply lastIndexOf_space_last; vm_compute; reflexivity |].
  split; [reflexivity |].
  split; [vm_compute; reflexivity |].
  vm_compute. discriminate.
Qed.

(* ================================================================== *)
(** * Handler: validation and fan-out *)
(* ================================================================== *)

Lemma str_eqb_eq (a c : str) : str_eqb a c = true <-> a = c.
Proof.
  revert c. induction a as [| x a IH]; destruct c as [| y c];
    cbn [str_eqb]; split; intro H; try reflexivity; try discriminate H.
  - apply andb_true_iff in H. destruct H as [Hx Ha].
    unfold ascii_eqb in Hx. apply Ascii.eqb_eq in Hx.
    apply IH in Ha. subst. reflexivity.
  - injection H as -> ->. unfold ascii_eqb. rewrite Ascii.eqb_refl.
    apply IH. reflexivity.
Qed.

Lemma str_eqb_refl (a : str) : str_eqb a a = true.
Proof. apply str_eqb_eq. reflexivity. Qed.






Lemma validated_valid (q : option json) (s : str) :
  validated q = Some s -> q = Some (JStr s) /\ 2 <= length (trim s).
Proof.
  destruct q as [[| | | s' | |] |]; cbn [validated]; try discriminate.
  destruct (negb (truthy (JStr s'))); [discriminate |].
  destruct (length (trim s') <? 2) eqn:E; [discriminate |].
  intro H. injection H as ->.
  apply Nat.ltb_ge in E. split; [reflexivity | exact E].
Qed.

Lemma validated_of_valid (received : option json) (q : str) :
  valid_query received q -> validated received = Some q.
Proof.
  intros [-> Hlen]. cbn [validated truthy].
  destruct q as [| c q]; [cbn in Hlen; lia |].
  cbn [str_eqb negb]. apply Nat.ltb_ge in Hlen. rewrite Hlen. reflexivity.
Qed.

(** ** The [sources] of a request *)

Lemma existsb_is_string (tag : str) (items : list json) :
  existsb (is_string tag) items = existsb (str_eqb tag) (strings_of items).
Proof.
  unfold strings_of.
  induction items as [| v items IH]; [reflexivity |].
  cbn [existsb flat_map]. rewrite existsb_app, IH.
  destruct v; cbn [is_string existsb]; rewrite ?orb_false_r; reflexivity.
Qed.

Lemma plan_array (items : list json) (l : Z) :
  plan (JArr items) l = Returns (listed_plan (strings_of items) l).
Proof.
  unfold plan, listed_plan, and_then. cbn [sources_includes].
  rewrite !existsb_is_string. reflexivity.
Qed.

(** For a request whose [sources] are a list, the log line does not
    throw and the plan is the one of the listed tags. *)
Lemma plan_listed (req : SearchRequest) (l : Z) :
  sources_listed req ->
  sources_length (match sources req with
                  | Some s => s
                  | None => default_sources
                  end) = Returns tt
  /\ plan (match sources req with
           | Some s => s
           | None => default_sources
           end) l
     = Returns (listed_plan (sources_of req) l).
Proof.
  unfold sources_listed, sources_of.
  destruct (sources req) as [[| | | | items |] |]; try contradiction;
    intros _; (split; [reflexivity |]).
  - apply plan_array.
  - unfold default_sources. rewrite plan_array. reflexivity.
Qed.

Lemma listed_plan_tags (tags : list str) (l : Z) (p : str * Z) :
  In p (listed_plan tags l) ->
  In (fst p) [tag_zendesk; tag_docs; tag_knowledge_base].
Proof.
  unfold listed_plan.
  destruct (existsb (str_eqb tag_zendesk) tags);
    destruct (existsb (str_eqb tag_docs) tags);
    destruct (existsb (str_eqb tag_knowledge_base) tags);
    cbn [app In]; intro H;
    repeat (destruct H as [<- | H]; [cbn [fst]; tauto |]);
    contradiction.
Qed.

Section HandlerFacts.

Variable adapter : str -> str -> Z -> Settled (list SearchResult).
Variable now : Z.

Lemma collect_fold (settled : list (Settled (list SearchResult))) :
  forall acc,
    fold_left collect settled acc
    = acc ++ flat_map contribution settled.
Proof.
  induction settled as [| s settled IH]; intro acc; cbn [fold_left flat_map].
  - symmetry. apply app_nil_r.
  - rewrite IH, app_assoc. f_equal.
    destruct s as [value | reason]; cbn [collect contribution].
    + destruct value; [symmetry; apply app_nil_r | reflexivity].
    + symmetry. apply app_nil_r.
Qed.

Lemma combine_contributions (settled : list (Settled (list SearchResult))) :
  combine settled = flat_map contribution settled.
Proof. unfold combine. apply (collect_fold settled []). Qed.

(** The merged list is what the adapters contributed to the
    invocations. *)
Lemma combine_gathered (q : str) (planned : list (str * Z)) :
  combine (allSettled adapter q planned)
  = gathered adapter (map (fun p => mkCall (fst p) q (snd p)) planned).
Proof.
  rewrite combine_contributions. unfold allSettled, gathered.
  rewrite !flat_map_concat_map, !map_map. reflexivity.
Qed.

(** The handler on a request with a valid query and listed sources. *)
Lemma unifiedSearch_listed (req : SearchRequest) (q : str) :
  validated (query req) = Some q ->
  sources_listed req ->
  unifiedSearch adapter now req
  = match rankResults now (gathered adapter (invocations req q)) q with
    | Throws _ => (service_error, invocations req q)
    | Returns ranked =>
        (Status200
           {| success := true;
              results := slice0 (limit_of req) ranked;
              total := length (gathered adapter (invocations req q));
              returned := length (slice0 (limit_of req) ranked);
              echoed_query := trim q;
              enabled_sources :=
                map fst (listed_plan (sources_of req) (limit_of req));
              api_version := lit "unified_v1" |},
         invocations req q)
    end.
Proof.
  intros Hq Hs. unfold unifiedSearch.
  change (match limit req with
          | Some l => l
          | None => default_limit
          end) with (limit_of req).
  destruct (@plan_listed req (limit_of req) Hs) as [-> ->].
  rewrite Hq, combine_gathered. reflexivity.
Qed.

(** The handler on a request with an invalid query. *)
Lemma unifiedSearch_invalid (req : SearchRequest) :
  validated (query req) = None ->
  unifiedSearch adapter now req
  = match sources req with
    | Some JNull => (service_error, [])
    | _ =>
        (Status400
           {| error_success := false;
              error := lit "Query must be at least 2 characters long";
              error_query := query_or_empty (query req) |},
         [])
    end.
Proof.
  intro H. unfold unifiedSearch. rewrite H.
  destruct (sources req) as [[| | | | |] |]; reflexivity.
Qed.

(** A reply with status 200 comes from a ranking that returned. *)
Lemma unifiedSearch_200 (req : SearchRequest) (body : SearchResponse) :
  fst (unifiedSearch adapter now req) = Status200 body ->
  exists q planned ranked,
    validated (query req) = Some q
    /\ plan (match sources req with
             | Some s => s
             | None => default_sources
             end) (limit_of req) = Returns planned
    /\ snd (unifiedSearch adapter now req)
       = map (fun p => mkCall (fst p) q (snd p)) planned
    /\ rankResults now (gathered adapter (snd (unifiedSearch adapter now req)))
                   q = Returns ranked
    /\ body = {| success := true;
                 results := slice0 (limit_of req) ranked;
                 total := length (gathered adapter
                                    (snd (unifiedSearch adapter now req)));
                 returned := length (slice0 (limit_of req) ranked);
                 echoed_query := trim q;
                 enabled_sources := map fst planned;
                 api_version := lit "unified_v1" |}.
Proof.
  unfold unifiedSearch.
  change (match limit req with
          | Some l => l
          | None => default_limit
          end) with (limit_of req).
  destruct (sources_length _); [| discriminate].
  destruct (validated (query req)) as [q |]; [| discriminate].
  destruct (plan _ (limit_of req)) as [planned |]; [| discriminate].
  rewrite combine_gathered.
  destruct (rankResults now _ q) as [ranked |] eqn:E; [| discriminate].
  cbn [fst snd]. intro H. injection H as <-.
  exists q, planned, ranked. rewrite E. repeat split; reflexivity.
Qed.




End HandlerFacts.


(** C1, counterexample.  The query "x" is too short, and [sources] is
    [null]: the log line throws before the query is validated, and the
    reply is the 500 of the [catch] block, not a 400. *)
Lemma invalid_query_rejected_counterexample :
  invalid_query (Some (JStr (lit "x")))
  /\ unifiedSearch (fun _ _ _ => Rejected (lit "not invoked")) 0
                   {| query := Some (JStr (lit "x"));
                      limit := None; sources := Some JNull |}
     = (Status500 {| failure_success := false;
                     failure_error := lit "Unified search service error" |},
        [])
  /\ forall body,
       fst (unifiedSearch (fun _ _ _ => Rejected (lit "not invoked")) 0
                          {| query := Some (JStr (lit "x"));
                             limit := None; sources := Some JNull |})
       <> Status400 body.
Proof.
  split; [vm_compute; lia |].
  split; [reflexivity | intros body H; discriminate H].
Qed.


(** C4, counterexample.  For the limit 8000000000000004 the product
    [limit * 0.3] is 2400000000000001.2; the double nearest to it is
    2400000000000001, and that is the limit the documentation and the
    knowledge-base adapters are given, one below the rounded-up share
    2400000000000002. *)
Lemma coordinator_fan_out_counterexample :
  plan default_sources 8000000000000004
  = Returns [ (lit "zendesk", 3200000000000002%Z);
              (lit "docs", 2400000000000001%Z);
              (lit "knowledge_base", 2400000000000001%Z) ]
  /\ map call_limit
         (snd (unifiedSearch (fun _ _ _ => Fulfilled []) 0
                 (request (lit "password reset") 8000000000000004)))
     = [3200000000000002%Z; 2400000000000001%Z; 2400000000000001%Z]
  /\ rounded_up 3 8000000000000004 2400000000000002
  /\ ~ rounded_up 3 8000000000000004 2400000000000001.
Proof.
  split; [vm_compute; reflexivity |].
  split.
  - assert (Hq : validated (query (request (lit "password reset")
                                     8000000000000004))
                 = Some (lit "password reset")) by reflexivity.
    rewrite (@unifiedSearch_listed (fun _ _ _ => Fulfilled []) 0%Z _ _ Hq I).
    destruct (rankResults 0 _ (lit "password reset"));
      cbn [snd]; vm_compute; reflexivity.
  - unfold rounded_up. split; lia.
Qed.

(* ================================================================== *)
(** * Adapters: failure handling *)
(* ================================================================== *)







Lemma slice0_all (A : Type) (n : Z) (l : list A) :
  (Z.of_nat (length l) <= n)%Z -> slice0 n l = l.
Proof.
  intro H. unfold slice0.
  destruct (n <? 0)%Z eqn:E; [apply Z.ltb_lt in E; lia |].
  apply firstn_all2. lia.
Qed.

Lemma firstn_incl (A : Type) (x : A) (n : nat) :
  forall l : list A, In x (firstn n l) -> In x l.
Proof.
  induction n as [| n IH]; intros l H; [contradiction |].
  destruct l as [| y l]; [contradiction |].
  destruct H as [H | H]; [left; exact H | right; apply IH; exact H].
Qed.

Lemma slice0_incl (A : Type) (n : Z) (l : list A) (x : A) :
  In x (slice0 n l) -> In x l.
Proof.
  unfold slice0.
  destruct (n <? 0)%Z; intro H; exact (firstn_incl _ _ _ H).
Qed.

(* ================================================================== *)
(** * Documentation adapter: scoring *)
(* ================================================================== *)

Lemma word_step_fold (titleLower bc : str) (words : list str) :
  forall acc : Z,
    fold_left (word_step titleLower bc) words acc
    = (acc + word_points titleLower bc words)%Z.
Proof.
  induction words as [| word rest IH]; intro acc;
    cbn [fold_left word_points]; [lia |].
  rewrite IH. unfold word_step.
  destruct (includes titleLower word); destruct (includes bc word); lia.
Qed.

Lemma lexical_score_formula (queryLower : str) (queryWords : list str)
                            (d : Doc) :
  lexical_score queryLower queryWords d
  = lexical_formula queryLower queryWords d.
Proof.
  unfold lexical_score, lexical_formula. rewrite word_step_fold.
  destruct (includes (toLowerCase (text_of (t d))) queryLower);
    destruct (includes (breadcrumbText d) queryLower); lia.
Qed.

Section DocsFacts.

Variable world : World.
Variable sep : str.

Lemma visit_doc_fold (queryLower : str) (queryWords : list str)
                     (documents : list Doc) :
  forall acc : list SearchResult,
    fold_left (visit_doc world sep queryLower queryWords) documents acc
    = acc
      ++ map (fun d => docs_result world sep d
                         (lexical_formula queryLower queryWords d))
             (filter (fun d => has_title_and_url d
                               && (0 <? lexical_formula queryLower
                                                        queryWords d)%Z)
                     documents).
Proof.
  induction documents as [| d documents IH]; intro acc;
    cbn [fold_left filter map].
  - symmetry. apply app_nil_r.
  - rewrite IH. unfold visit_doc, has_title_and_url.
    rewrite lexical_score_formula.
    destruct (missing (t d)); destruct (missing (u d));
      cbn [orb negb andb]; try reflexivity.
    destruct (0 <? lexical_formula queryLower queryWords d)%Z;
      [| reflexivity].
    cbn [map]. rewrite <- app_assoc. reflexivity.
Qed.

Lemma searchDocumentation_index (query : str) (n : Z)
                                (documents : list Doc) :
  search_index world = Response (IndexDocuments documents) ->
  searchDocumentation world sep query n
  = Fulfilled (slice0 n (js_sort by_score_desc
                                 (docs_scored world sep query documents))).
Proof.
  intro H. unfold searchDocumentation, docs_try. rewrite H.
  cbn [catch_empty]. rewrite visit_doc_fold. reflexivity.
Qed.

(** C6 (as amended). From an index with documents, the documentation
    adapter keeps the documents that have a title and a URL and a
    non-zero lexical score, the lexical score being 100 if the
    lowercase title contains the lowercase query with the white space
    at its two ends removed (the source trims the query before it
    compares), plus 50 if the joined lowercase breadcrumb text contains
    it, plus, for each word longer than 2 characters of that query, 20
    if the title contains the word and 10 if the breadcrumb text does;
    the score of a result is its lexical score times 0.9; the results
    are sorted by score, descending, and then cut to the limit. *)
Theorem docs_adapter_scoring (query : str) (n : Z)
                             (documents : list Doc) :
  search_index world = Response (IndexDocuments documents) ->
  searchDocumentation world sep query n
  = Fulfilled
      (slice0 n
         (js_sort by_score_desc
            (map (fun d => docs_result world sep d (trimmed_lexical query d))
                 (filter (fun d => has_title_and_url d
                                   && (0 <? trimmed_lexical query d)%Z)
                         documents))))
  /\ (forall d lexical,
        (score (docs_result world sep d lexical)
         == inject_Z lexical * (9 # 10))%Q)
  /\ StronglySorted (fun a c => (score c <= score a)%Q)
       (js_sort by_score_desc
          (map (fun d => docs_result world sep d (trimmed_lexical query d))
               (filter (fun d => has_title_and_url d
                                 && (0 <? trimmed_lexical query d)%Z)
                       documents))).
Proof.
  intro H. split; [| split].
  - apply (searchDocumentation_index query n H).
  - intros d lexical. reflexivity.
  - change by_score_desc with (desc score). apply (js_sort_sorted score).
Qed.

End DocsFacts.

(* ================================================================== *)
(** * Scores are not negative; documentation results are recent *)
(* ================================================================== *)

Lemma docs_adapter_scoring_witness :
  map (fun r => (id r, Qeq_bool (score r) 126))
      (contribution
         (searchDocumentation outage arrow (lit "Password Reset") 3))
  = [(lit "docs_3", true)].
Proof.
  rewrite (proj1 (@docs_adapter_scoring outage arrow (lit "Password Reset")
                    3%Z [untitled_doc; guide_doc] eq_refl)).
  vm_compute. reflexivity.
Defined.

(** C6, counterexample.  The query " password", with a space in front,
    and the document titled "Password Reset Guide": the title does not
    contain the lowercase full query (it has no space before
    "password"), so the claimed score is the 20 of the word match; the
    source trims the query first and the document scores 100 + 20, and
    108 after the multiplier. *)
Lemma docs_adapter_scoring_counterexample :
  claimed_lexical (space :: lit "password") guide_doc = 20%Z
  /\ lexical_score (trim (toLowerCase (space :: lit "password")))
       (filter (fun word => 2 <? length word)
          (split_whitespace (trim (toLowerCase (space :: lit "password")))))
       guide_doc = 120%Z
  /\ map (fun r => (id r, Qeq_bool (score r) 108))
         (contribution
            (searchDocumentation outage arrow (space :: lit "password") 3))
     = [(lit "docs_3", true)].
Proof. vm_compute. repeat split; reflexivity. Qed.

Lemma or_zero_nonneg (x : option Q) :
  (forall s, x = Some s -> (0 <= s)%Q) -> (0 <= or_zero x)%Q.
Proof.
  intro H. destruct x as [s |]; cbn [or_zero]; [| apply Qle_refl].
  destruct (Qeq_bool s 0); [apply Qle_refl | apply H; reflexivity].
Qed.

Lemma help_center_results (world : World) (q : str) (n : Z)
                          (mk : Article -> SearchResult) (r : SearchResult) :
  In r (contribution (catch_empty (help_center_try world q n mk))) ->
  exists articles a,
    help_center_search world q n = Response (ZendeskResults articles)
    /\ In a articles /\ r = mk a.
Proof.
  unfold help_center_try.
  destruct (help_center_search world q n) as [[articles |] | message];
    cbn [catch_empty contribution]; try contradiction.
  intro H. apply in_map_iff in H. destruct H as (a & <- & Hin).
  exists articles, a. split; [reflexivity |]. split; [exact Hin | reflexivity].
Qed.

Lemma docs_results (world : World) (sep q : str) (n : Z) (r : SearchResult) :
  In r (contribution (searchDocumentation world sep q n)) ->
  exists d lexical,
    r = docs_result world sep d lexical /\ (0 < lexical)%Z.
Proof.
  destruct (search_index world) as [[| | | documents] | message] eqn:E.
  1-3, 5: unfold searchDocumentation, docs_try; rewrite E;
    cbn [catch_empty contribution]; contradiction.
  rewrite (searchDocumentation_index world sep q n E).
  cbn [contribution]. intro H.
  apply slice0_incl in H.
  apply Permutation_in with (l' := docs_scored world sep q documents) in H;
    [| apply Permutation_sym; change by_score_desc with (desc score);
       apply js_sort_perm].
  unfold docs_scored in H. apply in_map_iff in H.
  destruct H as (d & <- & Hd). apply filter_In in Hd.
  destruct Hd as [_ Hd]. apply andb_true_iff in Hd. destruct Hd as [_ Hpos].
  exists d, (trimmed_lexical q d).
  split; [reflexivity | apply Z.ltb_lt; exact Hpos].
Qed.


Lemma gathered_In (adapter : str -> str -> Z -> Settled (list SearchResult))
                  (calls : list AdapterCall) (r : SearchResult) :
  In r (gathered adapter calls)
  <-> exists call,
        In call calls
        /\ In r (contribution (adapter (call_source call) (call_query call)
                                       (call_limit call))).
Proof. unfold gathered. apply in_flat_map. Qed.






Lemma adapter_scores_nonneg (world : World) (sep tag q : str) (n : Z)
                            (r : SearchResult) :
  upstream_scores_nonnegative world ->
  In r (contribution (adapters world sep tag q n)) ->
  (0 <= score r)%Q.
Proof.
  intros Hup. unfold adapters.
  destruct (str_eqb tag tag_zendesk); [| destruct (str_eqb tag tag_docs)].
  - intro H. apply help_center_results in H.
    destruct H as (articles & a & Hresp & Hin & ->).
    cbn [zendesk_result score].
    apply or_zero_nonneg. intros s Hs. exact (Hup _ _ _ _ _ Hresp Hin Hs).
  - intro H. apply docs_results in H.
    destruct H as (d & lexical & -> & Hpos).
    cbn [docs_result score].
    apply Qmult_le_0_compat; [| discriminate].
    unfold Qle. cbn. lia.
  - intro H. apply help_center_results in H.
    destruct H as (articles & a & Hresp & Hin & ->).
    cbn [kb_result score].
    apply Qmult_le_0_compat; [| discriminate].
    apply or_zero_nonneg. intros s Hs. exact (Hup _ _ _ _ _ Hresp Hin Hs).
Qed.

Lemma token_boost_nonneg (titleLower : str) (tokens : list str) :
  (0 <= token_boost titleLower tokens)%Z.
Proof.
  induction tokens as [| token rest IH]; cbn [token_boost]; [lia |].
  destruct (includes titleLower token); lia.
Qed.

Lemma boosts_nonneg (now : Z) (q : str) (r : SearchResult) :
  (0 <= token_boost (toLowerCase (text_of (title r))) (long_tokens (split_char space) q)
        + phrase_boost q r + priority_constant (source r)
        + recency_constant now (last_updated r))%Z.
Proof.
  pose proof (token_boost_nonneg (toLowerCase (text_of (title r)))
                (long_tokens (split_char space) q)).
  assert (0 <= phrase_boost q r)%Z
    by (unfold phrase_boost; destruct (includes _ _); lia).
  assert (0 <= priority_constant (source r))%Z
    by (unfold priority_constant; repeat destruct (str_eqb _ _); lia).
  assert (0 <= recency_constant now (last_updated r))%Z.
  { unfold recency_constant. destruct (last_updated r); [| lia].
    destruct (_ <? _)%Z; destruct (_ <? _)%Z; lia. }
  lia.
Qed.

(** The ranker never lowers a score. *)
Lemma rescore_not_below (now : Z) (q : str) (r : SearchResult) :
  (score r <= score (rescore now q r))%Q.
Proof.
  unfold rescore, with_score. cbn [score].
  rewrite final_score_formula.
  unfold space_separated_score, score_formula.
  pose proof (boosts_nonneg now q r) as H.
  rewrite <- !Qplus_assoc, <- !inject_Z_plus.
  apply Qle_trans with (score r + inject_Z 0)%Q.
  - rewrite Qplus_0_r. apply Qle_refl.
  - apply Qplus_le_r. rewrite <- Zle_Qle. lia.
Qed.

(** C9 (as amended). Provided every relevance score the help-center
    endpoint sends is non-negative, every result of a search response
    has a non-negative score: the help-center and knowledge-base adapters
    carry the upstream score (times 0.8 for the latter), the
    documentation adapter only produces positive scores, and the ranker
    never lowers a score. *)
Theorem scores_nonnegative (world : World) (sep : str) (req : SearchRequest)
                           (body : SearchResponse) :
  upstream_scores_nonnegative world ->
  fst (service world sep req) = Status200 body ->
  Forall (fun r => (0 <= score r)%Q) (results body)
  /\ (forall tag q n,
        Forall (fun r => (0 <= score r)%Q)
               (contribution (adapters world sep tag q n)))
  /\ (forall now q r, (score r <= score (rescore now q r))%Q).
Proof.
  intros Hup Hreply.
  split; [| split].
  - unfold service in Hreply.
    destruct (@unifiedSearch_200 (adapters world sep) (clock_rank world)
                req body Hreply)
      as (q & planned & ranked & _ & _ & _ & Hrank & ->).
    cbn [results]. apply Forall_forall. intros r Hr.
    apply slice0_incl in Hr.
    apply (@rankResults_In (clock_rank world) _ _ q r Hrank) in Hr.
    destruct Hr as (r0 & Hin & ->).
    apply Qle_trans with (score r0); [| apply rescore_not_below].
    apply gathered_In in Hin. destruct Hin as (call & _ & Hin).
    exact (@adapter_scores_nonneg _ _ _ _ _ _ Hup Hin).
  - intros tag q n. apply Forall_forall. intros r Hr.
    exact (@adapter_scores_nonneg _ _ _ _ _ _ Hup Hr).
  - apply rescore_not_below.
Qed.

Lemma scores_nonnegative_witness :
  forallb (fun r => Qle_bool 0 (score r))
          (reply_results
             (fst (service healthy arrow (request (lit "password reset") 10))))
  = true.
Proof.
  assert (Hup : upstream_scores_nonnegative healthy).
  { intros q n articles a s H Hin Hs. cbn in H. injection H as <-.
    destruct Hin as [<- | []]. cbn in Hs. injection Hs as <-.
    discriminate. }
  destruct (@scores_nonnegative healthy arrow
              (request (lit "password reset") 10) _ Hup eq_refl)
    as [H _].
  apply forallb_forall. intros r Hr. apply Qle_bool_iff.
  rewrite Forall_forall in H. apply H. exact Hr.
Defined.

(** C9, counterexample.  The endpoint sends an article with relevance
    score -50: the help-center adapter carries -50 and the
    knowledge-base adapter -40, and after the ranker's boosts (10 and 8
    for the source, nothing else applies) the response has the scores
    -32 and -40. *)
Lemma scores_nonnegative_counterexample :
  map (fun r => (id r, Qeq_bool (score r) (-50)))
      (contribution (searchZendesk negative_upstream (lit "password reset") 4))
  = [(lit "zendesk_9", true)]
  /\ map (fun r => (id r, Qeq_bool (score r) (-40)))
         (contribution
            (searchKnowledgeBase negative_upstream (lit "password reset") 3))
     = [(lit "kb_9", true)]
  /\ map (fun r => (id r, Qle_bool 0 (score r)))
         (reply_results
            (fst (service negative_upstream arrow
                    (request (lit "password reset") 10))))
     = [(lit "kb_9", false); (lit "zendesk_9", false)]
  /\ map (fun r => Qeq_bool (score r) (-32))
         (reply_results
            (fst (service negative_upstream arrow
                    (request (lit "password reset") 10))))
     = [true; false].
Proof. vm_compute. repeat split; reflexivity. Qed.

(** C10. Every result of the documentation adapter carries, as
    [last_updated], the instant at which the adapter ran; when the ranker
    runs less than 7 days after that instant, as it does within one
    request, the result receives both recency boosts, 15 in all, next to
    the 6 of its source. *)
Theorem docs_results_recent (world : World) (sep q : str) (n : Z)
                            (r : SearchResult) :
  In r (contribution (searchDocumentation world sep q n)) ->
  (clock_rank world - clock_docs world < 7 * 86400000)%Z ->
  last_updated r = Some (clock_docs world)
  /\ recency_boost (clock_rank world) (last_updated r) = 15%Z
  /\ forall ranked_query,
       (score (rescore (clock_rank world) ranked_query r)
        == score r
           + inject_Z (token_boost (toLowerCase (text_of (title r)))
                         (long_tokens (split_char space) ranked_query))
           + inject_Z (phrase_boost ranked_query r)
           + 6 + 15)%Q.
Proof.
  intros Hin Hrecent.
  apply docs_results in Hin. destruct Hin as (d & lexical & -> & _).
  assert (Hboost : recency_boost (clock_rank world)
                     (last_updated (docs_result world sep d lexical))
                   = 15%Z).
  { cbn [docs_result last_updated recency_boost]. unfold ms_per_day.
    destruct (clock_rank world - clock_docs world <? 30 * (1000 * 60 * 60 * 24))%Z
      eqn:E30;
      destruct (clock_rank world - clock_docs world <? 7 * (1000 * 60 * 60 * 24))%Z
        eqn:E7;
      try reflexivity;
      try (apply Z.ltb_ge in E7); try (apply Z.ltb_ge in E30); lia. }
  split; [reflexivity |]. split; [exact Hboost |].
  intro ranked_query.
  unfold rescore, with_score. cbn [score].
  rewrite final_score_formula.
  unfold space_separated_score, score_formula.
  rewrite <- recency_boost_constant, Hboost.
  reflexivity.
Qed.

Lemma docs_results_recent_witness :
  recency_boost (clock_rank outage)
    (last_updated (docs_result outage arrow guide_doc 140))
  = 15%Z.
Proof.
  apply (@docs_results_recent outage arrow (lit "password reset") 3%Z
           (docs_result outage arrow guide_doc 140)).
  - vm_compute. left. reflexivity.
  - vm_compute. reflexivity.
Defined.

(* ================================================================== *)
(** * Further properties of the text normalizer *)
(* ================================================================== *)

Lemma truncate_length (cleanText : str) (maxLength : nat) :
  length (truncate cleanText maxLength) <= maxLength + 3.
Proof.
  unfold truncate, substring0.
  assert (He : length ellipsis = 3) by reflexivity.
  destruct (maxLength <? length cleanText) eqn:E;
    [| apply Nat.ltb_ge in E; lia].
  pose proof (firstn_le_length maxLength cleanText) as Hcut.
  destruct (lastIndexOf_space (firstn maxLength cleanText)) as [k |].
  - destruct (beyond_70_percent (Some k) maxLength);
      rewrite length_app, He, ?length_firstn; lia.
  - cbn [beyond_70_percent]. rewrite length_app, He. lia.
Qed.

Lemma snippet_length_range (htmlText : option str) (maxLength : nat) :
  1 <= length (stripHtmlAndCreateSnippet htmlText maxLength)
  /\ length (stripHtmlAndCreateSnippet htmlText maxLength)
     <= Nat.max (maxLength + 3) 20.
Proof.
  assert (Hp : length placeholder = 20) by reflexivity.
  destruct htmlText as [[| c h] |]; cbn [stripHtmlAndCreateSnippet].
  1, 3: rewrite Hp; lia.
  pose proof (truncate_length (clean (c :: h)) maxLength) as Hlen.
  destruct (truncate (clean (c :: h)) maxLength) as [| x rest].
  - rewrite Hp. lia.
  - cbn [length] in *. lia.
Qed.

(** X1. Whatever its argument and bound, the normalizer returns a
    non-empty text, of at most [maxLength + 3] code units or else the
    20-unit placeholder; for a text whose cleaned form is not empty the
    result is that form when it fits in [maxLength] and is cut to at
    most [maxLength + 3] code units otherwise. *)
Theorem snippet_length_bounds (htmlText : option str) (maxLength : nat) :
  1 <= length (stripHtmlAndCreateSnippet htmlText maxLength)
  /\ length (stripHtmlAndCreateSnippet htmlText maxLength)
     <= Nat.max (maxLength + 3) 20
  /\ forall h, htmlText = Some h ->
               clean h <> [] ->
               length (stripHtmlAndCreateSnippet htmlText maxLength)
               <= maxLength + 3
               /\ (length (clean h) <= maxLength ->
                   stripHtmlAndCreateSnippet htmlText maxLength = clean h).
Proof.
  destruct (snippet_length_range htmlText maxLength) as [Hlow Hhigh].
  split; [exact Hlow |]. split; [exact Hhigh |].
  intros h -> Hne.
  destruct h as [| c h]; [exfalso; apply Hne; reflexivity |].
  pose proof (truncate_length (clean (c :: h)) maxLength) as Hlen.
  assert (Hcut : truncate (clean (c :: h)) maxLength <> []).
  { unfold truncate, substring0.
    destruct (maxLength <? length (clean (c :: h))); [| exact Hne].
    destruct (lastIndexOf_space _) as [k |];
      [destruct (beyond_70_percent (Some k) maxLength) |
       cbn [beyond_70_percent]];
      intro H; apply app_eq_nil in H; destruct H as [_ H]; discriminate H. }
  pose proof (@snippet_of_text c h maxLength Hcut) as Hsnippet.
  split.
  - apply Nat.le_trans with (length (truncate (clean (c :: h)) maxLength));
      [apply Nat.eq_le_incl; f_equal; exact Hsnippet | exact Hlen].
  - intro Hfit.
    transitivity (truncate (clean (c :: h)) maxLength);
      [exact Hsnippet | apply truncate_short; exact Hfit].
Qed.

Lemma collapse_single_spaces (s : str) :
  single_spaced (collapse_whitespace s) = true.
Proof.
  induction s as [| c r IH]; [reflexivity |].
  cbn [collapse_whitespace].
  destruct (is_whitespace c) eqn:Ews.
  - destruct r as [| c' r']; [reflexivity |].
    destruct (is_whitespace c') eqn:Ews'; [exact IH |].
    rewrite (@collapse_keeps c' r' Ews') in IH |- *.
    cbn [single_spaced] in IH |- *.
    change (is_whitespace space) with true. cbv iota.
    rewrite Ews' in IH |- *. unfold ascii_eqb at 1.
    rewrite Ascii.eqb_refl. exact IH.
  - cbn [single_spaced]. rewrite Ews, IH. reflexivity.
Qed.

Lemma trimStart_idempotent (s : str) : trimStart (trimStart s) = trimStart s.
Proof.
  induction s as [| c r IH]; [reflexivity |].
  cbn [trimStart]. destruct (is_whitespace c) eqn:E; [exact IH |].
  cbn [trimStart]. rewrite E. reflexivity.
Qed.

Lemma trimEnd_idempotent (s : str) : trimEnd (trimEnd s) = trimEnd s.
Proof.
  induction s as [| c r IH]; [reflexivity |].
  rewrite trimEnd_cons.
  destruct (trimEnd r) as [| k kept] eqn:Ek.
  - destruct (is_whitespace c) eqn:E; [reflexivity |].
    cbn [trimEnd]. rewrite E. reflexivity.
  - rewrite trimEnd_cons, IH. reflexivity.
Qed.

Lemma trimStart_fixed_head (c : ascii) (r : str) :
  trimStart (c :: r) = c :: r -> is_whitespace c = false.
Proof.
  cbn [trimStart]. destruct (is_whitespace c); [| reflexivity].
  intro H. pose proof (trimStart_length r) as Hlen.
  rewrite H in Hlen. cbn [length] in Hlen. lia.
Qed.

Lemma trimStart_trimEnd (s : str) :
  trimStart s = s -> trimStart (trimEnd s) = trimEnd s.
Proof.
  destruct s as [| c r]; [reflexivity |].
  intro H. apply trimStart_fixed_head in H.
  rewrite (@trimEnd_keeps c r H). cbn [trimStart]. rewrite H. reflexivity.
Qed.

Lemma trim_idempotent (s : str) : trim (trim s) = trim s.
Proof.
  unfold trim.
  rewrite (trimStart_trimEnd (trimStart_idempotent s)).
  apply trimEnd_idempotent.
Qed.

Lemma clean_tight (htmlText : str) :
  trimStart (clean htmlText) = clean htmlText
  /\ trimEnd (clean htmlText) = clean htmlText
  /\ single_spaced (clean htmlText) = true.
Proof.
  split; [| split].
  - unfold clean, trim. apply trimStart_trimEnd, trimStart_idempotent.
  - unfold clean, trim. apply trimEnd_idempotent.
  - unfold clean. rewrite trim_collapse. apply collapse_single_spaces.
Qed.

(** X2. The cleaned text never starts or ends with white space, every
    white-space code unit in it is a single space character between two
    other code units, and cleaning it again for white space changes
    nothing. *)
Theorem clean_normal_form (htmlText : str) :
  trimStart (clean htmlText) = clean htmlText
  /\ trimEnd (clean htmlText) = clean htmlText
  /\ single_spaced (clean htmlText) = true
  /\ trim (collapse_whitespace (clean htmlText)) = clean htmlText.
Proof.
  destruct (clean_tight htmlText) as (Hstart & Hend & Hspaces).
  repeat split; try assumption.
  rewrite (collapse_single_spaced _ Hspaces).
  unfold trim. rewrite Hstart. exact Hend.
Qed.

Lemma includes_head (s p : str) (x : ascii) :
  includes s (x :: p) = true -> existsb (ascii_eqb x) s = true.
Proof.
  induction s as [| c s IH]; cbn [includes startsWith existsb].
  - discriminate.
  - intro H. apply orb_true_iff in H. destruct H as [H | H].
    + apply andb_true_iff in H. destruct H as [H _]. rewrite H. reflexivity.
    + rewrite (IH H). apply orb_true_r.
Qed.

Lemma whitespace_has_no (x : ascii) (s : str) :
  is_whitespace x = false ->
  forallb is_whitespace s = true ->
  existsb (ascii_eqb x) s = false.
Proof.
  intro Hx. induction s as [| c s IH]; [reflexivity |].
  cbn [forallb existsb]. intro H.
  apply andb_true_iff in H. destruct H as [Hc Hs].
  rewrite (IH Hs), orb_false_r.
  unfold ascii_eqb. destruct (Ascii.eqb x c) eqn:E; [| reflexivity].
  apply Ascii.eqb_eq in E. subst c. rewrite Hx in Hc. discriminate Hc.
Qed.

Lemma whitespace_has_no_entity (s : str) :
  forallb is_whitespace s = true -> contains_entity s = false.
Proof.
  intro H. unfold contains_entity, entities. cbn [existsb fst].
  assert (Hamp : forall p, includes s (ascii_of_nat 38 :: p) = false).
  { intro p. destruct (includes s (ascii_of_nat 38 :: p)) eqn:E;
      [| reflexivity].
    apply includes_head in E.
    rewrite (whitespace_has_no (ascii_of_nat 38) s eq_refl H) in E.
    discriminate E. }
  change (lit "&nbsp;") with (ascii_of_nat 38 :: lit "nbsp;").
  change (lit "&amp;") with (ascii_of_nat 38 :: lit "amp;").
  change (lit "&lt;") with (ascii_of_nat 38 :: lit "lt;").
  change (lit "&gt;") with (ascii_of_nat 38 :: lit "gt;").
  change (lit "&quot;") with (ascii_of_nat 38 :: lit "quot;").
  change (lit "&#39;") with (ascii_of_nat 38 :: lit "#39;").
  rewrite !Hamp. reflexivity.
Qed.

Lemma trimStart_whitespace (s : str) :
  forallb is_whitespace s = true -> trimStart s = [].
Proof.
  induction s as [| c s IH]; [reflexivity |].
  cbn [forallb trimStart]. intro H.
  apply andb_true_iff in H. destruct H as [Hc Hs].
  rewrite Hc. exact (IH Hs).
Qed.

Lemma clean_of_blank (h : str) :
  forallb is_whitespace (strip_tags h) = true -> clean h = [].
Proof.
  intro H. unfold clean.
  rewrite (decode_entities_plain _ (whitespace_has_no_entity _ H)).
  rewrite trim_collapse. unfold trim.
  rewrite (trimStart_whitespace _ H). reflexivity.
Qed.

(** X3. A text that is nothing but tags and white space gives the
    placeholder, whatever the bound. *)
Theorem blank_text_gives_placeholder (h : str) (maxLength : nat) :
  forallb is_whitespace (strip_tags h) = true ->
  stripHtmlAndCreateSnippet (Some h) maxLength = lit "No preview available".
Proof.
  intro H. destruct h as [| c h]; [reflexivity |].
  cbn [stripHtmlAndCreateSnippet].
  rewrite (clean_of_blank _ H).
  rewrite truncate_short by (cbn [length]; lia). reflexivity.
Qed.

Lemma blank_text_gives_placeholder_witness :
  stripHtmlAndCreateSnippet (Some (lit "<p> <br/> </p>")) 200
  = lit "No preview available".
Proof.
  apply (@blank_text_gives_placeholder (lit "<p> <br/> </p>") 200).
  vm_compute. reflexivity.
Defined.

Lemma single_spaced_tail (c : ascii) (s : str) :
  single_spaced (c :: s) = true -> single_spaced s = true.
Proof.
  cbn [single_spaced]. intro H. apply andb_true_iff in H. apply H.
Qed.

Lemma single_spaced_firstn (s : str) :
  single_spaced s = true -> forall n, single_spaced (firstn n s) = true.
Proof.
  induction s as [| c s IH]; intros H n.
  - rewrite firstn_nil. reflexivity.
  - destruct n as [| n]; [reflexivity |].
    cbn [firstn]. specialize (IH (single_spaced_tail _ _ H) n).
    cbn [single_spaced] in H |- *. rewrite IH, andb_true_r.
    apply andb_true_iff in H. destruct H as [H _].
    destruct (is_whitespace c); [| reflexivity].
    apply andb_true_iff in H. destruct H as [Hsp Hnext]. rewrite Hsp.
    destruct n as [| n]; [reflexivity |].
    destruct s as [| c' s']; [reflexivity | exact Hnext].
Qed.

Lemma single_spaced_ellipsis (s : str) :
  single_spaced s = true -> single_spaced (s ++ ellipsis) = true.
Proof.
  induction s as [| c s IH]; intro H; [reflexivity |].
  cbn [app single_spaced] in H |- *.
  apply andb_true_iff in H. destruct H as [Hc Hs].
  rewrite (IH Hs), andb_true_r.
  destruct (is_whitespace c); [| reflexivity].
  apply andb_true_iff in Hc. destruct Hc as [Hsp Hnext]. rewrite Hsp.
  destruct s as [| c' s']; [reflexivity | exact Hnext].
Qed.

Lemma trimStart_firstn (s : str) (n : nat) :
  trimStart s = s -> trimStart (firstn n s ++ ellipsis) = firstn n s ++ ellipsis.
Proof.
  intro H. destruct s as [| c s]; [rewrite firstn_nil; reflexivity |].
  destruct n as [| n]; [reflexivity |].
  apply trimStart_fixed_head in H.
  cbn [firstn app trimStart]. rewrite H. reflexivity.
Qed.

(** X4. A snippet never starts with white space and never contains a
    tabulation, a line break or two spaces in a row: every white-space
    code unit in it is a single space character. *)
Theorem snippet_is_single_spaced (htmlText : option str) (maxLength : nat) :
  single_spaced (stripHtmlAndCreateSnippet htmlText maxLength) = true
  /\ trimStart (stripHtmlAndCreateSnippet htmlText maxLength)
     = stripHtmlAndCreateSnippet htmlText maxLength.
Proof.
  destruct htmlText as [[| c h] |]; cbn [stripHtmlAndCreateSnippet];
    try (split; reflexivity).
  destruct (clean_tight (c :: h)) as (Hstart & _ & Hspaces).
  assert (Hcut : single_spaced (truncate (clean (c :: h)) maxLength) = true
                 /\ trimStart (truncate (clean (c :: h)) maxLength)
                    = truncate (clean (c :: h)) maxLength).
  { unfold truncate, substring0.
    destruct (maxLength <? length (clean (c :: h)));
      [| split; assumption].
    destruct (lastIndexOf_space (firstn maxLength (clean (c :: h))))
      as [k |];
      [destruct (beyond_70_percent (Some k) maxLength) |
       cbn [beyond_70_percent]].
    - rewrite firstn_firstn. split;
        [apply single_spaced_ellipsis, single_spaced_firstn; exact Hspaces
        | apply trimStart_firstn; exact Hstart].
    - split;
        [apply single_spaced_ellipsis, single_spaced_firstn; exact Hspaces
        | apply trimStart_firstn; exact Hstart].
    - split;
        [apply single_spaced_ellipsis, single_spaced_firstn; exact Hspaces
        | apply trimStart_firstn; exact Hstart]. }
  destruct (truncate (clean (c :: h)) maxLength);
    [split; reflexivity | exact Hcut].
Qed.

(* ================================================================== *)
(** * Further properties of the ranker *)
(* ================================================================== *)

(** X5. The recency boost has three levels: 15 for a result updated less
    than 7 days before the ranking (or dated in the future), 5 from 7
    days to less than 30 days, and 0 from 30 days on or without a usable
    date; a boost of 10 alone does not occur. *)
Theorem recency_boost_levels (now updated : Z) :
  (recency_boost now (Some updated) = 15%Z
   <-> (now - updated < 7 * 86400000)%Z)
  /\ (recency_boost now (Some updated) = 5%Z
      <-> (7 * 86400000 <= now - updated < 30 * 86400000)%Z)
  /\ (recency_boost now (Some updated) = 0%Z
      <-> (30 * 86400000 <= now - updated)%Z)
  /\ recency_boost now None = 0%Z.
Proof.
  cbn [recency_boost]. unfold ms_per_day.
  destruct (now - updated <? 30 * (1000 * 60 * 60 * 24))%Z eqn:E30;
    destruct (now - updated <? 7 * (1000 * 60 * 60 * 24))%Z eqn:E7;
    try (apply Z.ltb_lt in E30); try (apply Z.ltb_ge in E30);
    try (apply Z.ltb_lt in E7); try (apply Z.ltb_ge in E7);
    repeat split; intros; try reflexivity; try lia; try discriminate.
Qed.





Lemma startsWith_prefix (p s : str) :
  startsWith p s = true <-> exists rest, s = p ++ rest.
Proof.
  revert s. induction p as [| x p IH]; intro s.
  - split; [intros _; exists s; reflexivity | reflexivity].
  - destruct s as [| y s]; cbn [startsWith].
    + split; [discriminate | intros [rest H]; discriminate H].
    + rewrite andb_true_iff, IH. unfold ascii_eqb. rewrite Ascii.eqb_eq.
      split.
      * intros [-> [rest ->]]. exists rest. reflexivity.
      * intros [rest H]. injection H as -> ->.
        split; [reflexivity | exists rest; reflexivity].
Qed.

Lemma includes_infix (s p : str) :
  includes s p = true <-> exists before rest, s = before ++ p ++ rest.
Proof.
  induction s as [| c s IH]; cbn [includes]; rewrite orb_true_iff.
  - rewrite startsWith_prefix. split.
    + intros [[rest H] | H]; [| discriminate H].
      exists [], rest. exact H.
    + intros (before & rest & H). left.
      destruct before as [| x before]; [| discriminate H].
      exists rest. exact H.
  - rewrite startsWith_prefix, IH. split.
    + intros [[rest H] | (before & rest & H)].
      * exists [], rest. exact H.
      * exists (c :: before), rest. rewrite H. reflexivity.
    + intros (before & rest & H).
      destruct before as [| x before].
      * left. exists rest. exact H.
      * right. injection H as -> ->. exists before, rest. reflexivity.
Qed.

Lemma includes_trans (s m p : str) :
  includes s m = true -> includes m p = true -> includes s p = true.
Proof.
  rewrite !includes_infix.
  intros (a & b' & ->) (a' & b'' & ->).
  exists (a ++ a'), (b'' ++ b'). rewrite <- !app_assoc. reflexivity.
Qed.

Lemma split_char_head (sep : ascii) (s : str) :
  exists piece pieces rest,
    split_char sep s = piece :: pieces /\ s = piece ++ rest.
Proof.
  induction s as [| c s (piece & pieces & rest & Hsplit & Hs)].
  - exists [], [], []. split; reflexivity.
  - cbn [split_char]. destruct (ascii_eqb c sep).
    + exists [], (split_char sep s), (c :: s). split; reflexivity.
    + rewrite Hsplit. exists (c :: piece), pieces, rest.
      split; [reflexivity | rewrite Hs at 1; reflexivity].
Qed.

(** Every piece of [s.split(sep)] occurs in [s]. *)
Lemma split_char_pieces (sep : ascii) (s piece : str) :
  In piece (split_char sep s) -> includes s piece = true.
Proof.
  revert piece. induction s as [| c s IH]; intros piece.
  - cbn [split_char]. intros [<- | []]. reflexivity.
  - cbn [split_char]. destruct (ascii_eqb c sep).
    + intros [<- | H]; [reflexivity |].
      cbn [includes]. rewrite (IH _ H). apply orb_true_r.
    + destruct (split_char_head sep s)
        as (first & pieces & rest & Hsplit & Hs).
      rewrite Hsplit in IH |- *.
      intros [<- | H].
      * apply includes_infix. exists [], rest.
        rewrite Hs at 1. reflexivity.
      * cbn [includes]. rewrite (IH _ (or_intror H)). apply orb_true_r.
Qed.

Lemma filter_all (A : Type) (f : A -> bool) (l : list A) :
  (forall x, In x l -> f x = true) -> filter f l = l.
Proof.
  induction l as [| x l IH]; [reflexivity |].
  intro H. cbn [filter]. rewrite (H x (or_introl eq_refl)).
  f_equal. apply IH. intros y Hy. apply H. right. exact Hy.
Qed.

(** X8. When the lowercased title contains the whole lowercased query,
    it contains every query term as well: a phrase match always comes
    with the 20 points of each term longer than 2 characters, and the
    final score is the carried-in score plus 30, plus 20 for each such
    term, plus the source and recency boosts. *)
Theorem phrase_match_counts_every_term (now : Z) (query : str)
                                       (r : SearchResult) :
  phrase_match query r = true ->
  titleMatches query r = length (queryTerms query)
  /\ (score (rescore now query r)
      == score r
         + inject_Z (20 * Z.of_nat (length (queryTerms query)) + 30)
         + inject_Z (source_boost r)
         + inject_Z (recency_boost now (last_updated r)))%Q.
Proof.
  intro Hphrase. unfold phrase_match in Hphrase.
  assert (Hall : titleMatches query r = length (queryTerms query)).
  { unfold titleMatches. f_equal. apply filter_all.
    intros term Hterm. unfold queryTerms in Hterm.
    apply filter_In in Hterm. destruct Hterm as [Hterm _].
    apply split_char_pieces in Hterm.
    exact (includes_trans _ _ _ Hphrase Hterm). }
  split; [exact Hall |].
  unfold rescore, with_score. cbn [score].
  unfold final_score, phrase_match. rewrite Hphrase, Hall.
  pose proof (or_zero_some (score r)) as Hcarried. rewrite Hcarried.
  rewrite inject_Z_plus, Z.mul_comm. change (inject_Z 30) with 30%Q. ring.
Qed.

Lemma phrase_match_counts_every_term_witness :
  titleMatches (lit "Password Reset")
    (zendesk_result
       (mkArticle 7 (Some (lit "How to do a password reset quickly")) [] None None
                  None None JNull JNull))
  = 2.
Proof.
  apply (@phrase_match_counts_every_term 0%Z (lit "Password Reset")
           (zendesk_result
              (mkArticle 7 (Some (lit "How to do a password reset quickly"))
                         [] None None None None JNull JNull))).
  vm_compute. reflexivity.
Defined.

Lemma lower_char_idempotent (c : ascii) :
  lower_char (lower_char c) = lower_char c.
Proof. destruct c as [[] [] [] [] [] [] [] []]; vm_compute; reflexivity. Qed.

Lemma lower_char_whitespace (c : ascii) :
  is_whitespace (lower_char c) = is_whitespace c.
Proof. destruct c as [[] [] [] [] [] [] [] []]; vm_compute; reflexivity. Qed.

Lemma toLowerCase_idempotent (s : str) :
  toLowerCase (toLowerCase s) = toLowerCase s.
Proof.
  unfold toLowerCase. rewrite map_map.
  apply map_ext. intro c. apply lower_char_idempotent.
Qed.

Lemma toLowerCase_trimStart (s : str) :
  trimStart (toLowerCase s) = toLowerCase (trimStart s).
Proof.
  induction s as [| c s IH]; [reflexivity |].
  cbn [toLowerCase map trimStart]. rewrite lower_char_whitespace.
  destruct (is_whitespace c); [exact IH | reflexivity].
Qed.

Lemma toLowerCase_trimEnd (s : str) :
  trimEnd (toLowerCase s) = toLowerCase (trimEnd s).
Proof.
  induction s as [| c s IH]; [reflexivity |].
  change (toLowerCase (c :: s)) with (lower_char c :: toLowerCase s).
  rewrite !trimEnd_cons, IH, lower_char_whitespace.
  destruct (trimEnd s) as [| k kept]; [| reflexivity].
  cbn [toLowerCase map]. destruct (is_whitespace c); reflexivity.
Qed.

Lemma toLowerCase_trim (s : str) :
  trim (toLowerCase s) = toLowerCase (trim s).
Proof.
  unfold trim. rewrite toLowerCase_trimStart, toLowerCase_trimEnd.
  reflexivity.
Qed.

Lemma rankResults_ext (now : Z) (results : list SearchResult)
                      (q q' : str) :
  toLowerCase q = toLowerCase q' ->
  rankResults now results q = rankResults now results q'.
Proof.
  intro H. unfold rankResults. f_equal.
  assert (Hcb : forall r, rank_callback now q r = rank_callback now q' r).
  { intro r. unfold rank_callback, rescore, final_score, titleMatches,
      queryTerms, phrase_match.
    rewrite H. reflexivity. }
  induction results as [| r results IH]; [reflexivity |].
  cbn [array_map]. rewrite Hcb, IH. reflexivity.
Qed.

(** X9. The ranker and the documentation adapter do not see the case of
    the query: the query in lower case gives the same ranking and the
    same documentation results as the query itself. *)
Theorem query_case_is_ignored (world : World) (sep : str) (now : Z)
                              (results : list SearchResult) (q : str)
                              (n : Z) :
  rankResults now results (toLowerCase q) = rankResults now results q
  /\ searchDocumentation world sep (toLowerCase q) n
     = searchDocumentation world sep q n.
Proof.
  split.
  - apply rankResults_ext, toLowerCase_idempotent.
  - unfold searchDocumentation, docs_try.
    rewrite toLowerCase_idempotent. reflexivity.
Qed.

(** X10. The three adapters do not see white space around the query:
    the trimmed query gives each of them the same request and the same
    results as the query itself. *)
Theorem adapters_trim_the_query (world : World) (sep q : str) (n : Z) :
  searchZendesk world (trim q) n = searchZendesk world q n
  /\ searchKnowledgeBase world (trim q) n = searchKnowledgeBase world q n
  /\ searchDocumentation world sep (trim q) n
     = searchDocumentation world sep q n.
Proof.
  split; [| split].
  - unfold searchZendesk. rewrite trim_idempotent. reflexivity.
  - unfold searchKnowledgeBase. rewrite trim_idempotent. reflexivity.
  - unfold searchDocumentation, docs_try.
    rewrite <- !toLowerCase_trim, trim_idempotent. reflexivity.
Qed.

(* ================================================================== *)
(** * Further properties of the adapters *)
(* ================================================================== *)

Lemma docs_results_origin (world : World) (sep q : str) (n : Z)
                          (r : SearchResult) :
  In r (contribution (searchDocumentation world sep q n)) ->
  exists d,
    r = docs_result world sep d (trimmed_lexical q d)
    /\ has_title_and_url d = true
    /\ (0 < trimmed_lexical q d)%Z.
Proof.
  destruct (search_index world) as [[| | | documents] | message] eqn:E.
  1-3, 5: unfold searchDocumentation, docs_try; rewrite E;
    cbn [catch_empty contribution]; contradiction.
  rewrite (searchDocumentation_index world sep q n E).
  cbn [contribution]. intro H.
  apply slice0_incl in H.
  apply Permutation_in with (l' := docs_scored world sep q documents) in H;
    [| apply Permutation_sym; change by_score_desc with (desc score);
       apply js_sort_perm].
  unfold docs_scored in H. apply in_map_iff in H.
  destruct H as (d & <- & Hd). apply filter_In in Hd.
  destruct Hd as [_ Hd]. apply andb_true_iff in Hd. destruct Hd as [Hd Hpos].
  exists d. split; [reflexivity |].
  split; [exact Hd | apply Z.ltb_lt; exact Hpos].
Qed.

Lemma word_points_tens (titleLower bc : str) (words : list str) :
  exists k, word_points titleLower bc words = (10 * k)%Z.
Proof.
  induction words as [| word rest [k IH]]; cbn [word_points].
  - exists 0%Z. reflexivity.
  - rewrite IH.
    destruct (includes titleLower word); destruct (includes bc word);
      [exists (3 + k)%Z | exists (2 + k)%Z | exists (1 + k)%Z | exists k];
      lia.
Qed.

Lemma lexical_formula_tens (phrase : str) (words : list str) (d : Doc) :
  exists k, lexical_formula phrase words d = (10 * k)%Z.
Proof.
  unfold lexical_formula.
  destruct (word_points_tens (toLowerCase (text_of (t d)))
              (breadcrumbText d) words) as [k ->].
  destruct (includes _ phrase); destruct (includes _ phrase);
    [exists (15 + k)%Z | exists (10 + k)%Z | exists (5 + k)%Z | exists k];
    lia.
Qed.

(** X11. Every result of the documentation adapter carries the tag
    [docs], a non-empty string as its title, an id that starts with "docs_", a URL
    that starts with the address of the documentation site, a category,
    and a score of at least 9 (lexical scores are multiples of 10). *)
Theorem docs_result_invariants (world : World) (sep q : str) (n : Z)
                               (r : SearchResult) :
  In r (contribution (searchDocumentation world sep q n)) ->
  source r = lit "docs"
  /\ (exists text, title r = Some text /\ 1 <= length text)
  /\ startsWith (lit "docs_") (id r) = true
  /\ startsWith (lit "https://help.getmaintainx.com") (url r) = true
  /\ length (lit "https://help.getmaintainx.com") < length (url r)
  /\ category r <> None
  /\ (9 <= score r)%Q.
Proof.
  intro H. apply docs_results_origin in H.
  destruct H as (d & -> & Hd & Hpos).
  unfold has_title_and_url in Hd. apply andb_true_iff in Hd.
  destruct Hd as [Ht Hu].
  cbn [docs_result source title id url category score].
  split; [reflexivity |].
  split; [destruct (t d) as [[| c tt] |]; try discriminate Ht;
          cbn [text_of]; eexists; split; [reflexivity | cbn [length]; lia] |].
  split; [apply startsWith_prefix; eexists; reflexivity |].
  split; [apply startsWith_prefix; eexists; reflexivity |].
  split; [rewrite length_app;
          destruct (u d) as [[| c uu] |]; try discriminate Hu;
          cbn [text_of length]; lia |].
  split; [destruct (b d) as [[| first rest] |]; discriminate |].
  unfold trimmed_lexical in Hpos |- *.
  destruct (lexical_formula_tens (trim (toLowerCase q))
              (long_words (trim (toLowerCase q))) d) as [k Hk].
  rewrite Hk in Hpos |- *.
  unfold Qle. cbn [Qnum Qden inject_Z Qmult]. lia.
Qed.

Lemma docs_result_invariants_witness :
  source (docs_result outage arrow guide_doc 140) = lit "docs".
Proof.
  apply (@docs_result_invariants outage arrow (lit "password reset") 3%Z
           (docs_result outage arrow guide_doc 140)).
  vm_compute. left. reflexivity.
Defined.

Lemma slice0_nonneg (A : Type) (n : Z) (l : list A) :
  (0 <= n)%Z -> slice0 n l = firstn (Z.to_nat n) l.
Proof.
  intro H. unfold slice0.
  destruct (n <? 0)%Z eqn:E; [apply Z.ltb_lt in E; lia | reflexivity].
Qed.

(** X12. For a limit that is not negative the documentation adapter
    returns at most [limit] results, and never more than the index has
    documents; a smaller limit gives a prefix of what a larger limit
    gives. *)
Theorem docs_limit_is_a_prefix (world : World) (sep q : str) (n m : Z) :
  (0 <= n <= m)%Z ->
  length (contribution (searchDocumentation world sep q n)) <= Z.to_nat n
  /\ contribution (searchDocumentation world sep q n)
     = firstn (Z.to_nat n)
              (contribution (searchDocumentation world sep q m))
  /\ forall documents,
       search_index world = Response (IndexDocuments documents) ->
       length (contribution (searchDocumentation world sep q n))
       <= length documents.
Proof.
  intro H.
  destruct (search_index world) as [[| | | documents] | message] eqn:E.
  1-3, 5: unfold searchDocumentation, docs_try; rewrite E;
    cbn [catch_empty contribution length]; rewrite firstn_nil;
    split; [lia |]; split; [reflexivity |];
    intros documents' Hd; discriminate Hd.
  rewrite !(searchDocumentation_index world sep q _ E).
  cbn [contribution]. rewrite !slice0_nonneg by lia.
  split; [apply firstn_le_length |].
  split.
  - rewrite firstn_firstn. f_equal. lia.
  - intros documents' Hd. injection Hd as <-.
    rewrite length_firstn.
    change by_score_desc with (desc score). rewrite js_sort_length.
    unfold docs_scored. rewrite length_map.
    pose proof (filter_length_le
                  (fun d => has_title_and_url d
                            && (0 <? trimmed_lexical q d)%Z) documents).
    lia.
Qed.

Lemma docs_limit_is_a_prefix_witness :
  length (contribution
            (searchDocumentation outage arrow (lit "password reset") 0))
  <= 0.
Proof.
  refine (proj1 (@docs_limit_is_a_prefix outage arrow
                   (lit "password reset") 0%Z 3%Z _)).
  lia.
Defined.

(** X13. The two help-center adapters return one result for each
    article of the response, in the order of the response and without
    cutting to the limit themselves; every such result has a non-empty
    snippet of at most 203 code units, the tag of its adapter and an id
    with the prefix of its adapter. *)
Theorem help_center_result_invariants (world : World) (q : str) (n : Z) :
  (forall articles,
     help_center_search world (trim q) n
     = Response (ZendeskResults articles) ->
     map title (contribution (searchZendesk world q n))
     = map article_title articles)
  /\ (forall articles,
        help_center_search world (trim q ++ kb_keywords) n
        = Response (ZendeskResults articles) ->
        map title (contribution (searchKnowledgeBase world q n))
        = map article_title articles)
  /\ (forall r,
        In r (contribution (searchZendesk world q n)) ->
        1 <= length (snippet r) <= 203
        /\ source r = lit "zendesk"
        /\ startsWith (lit "zendesk_") (id r) = true)
  /\ (forall r,
        In r (contribution (searchKnowledgeBase world q n)) ->
        1 <= length (snippet r) <= 203
        /\ source r = lit "knowledge_base"
        /\ startsWith (lit "kb_") (id r) = true
        /\ category r = Some (lit "Knowledge Base")).
Proof.
  split; [| split; [| split]].
  - intros articles H. unfold searchZendesk, help_center_try. rewrite H.
    cbn [catch_empty contribution]. rewrite map_map. reflexivity.
  - intros articles H. unfold searchKnowledgeBase, help_center_try.
    rewrite H. cbn [catch_empty contribution]. rewrite map_map. reflexivity.
  - intros r H. apply help_center_results in H.
    destruct H as (articles & a & _ & _ & ->).
    cbn [zendesk_result snippet source id].
    pose proof (snippet_length_range (body a) 200) as Hs.
    change (Nat.max (200 + 3) 20) with 203 in Hs.
    split; [exact Hs |]. split; [reflexivity |].
    apply startsWith_prefix. eexists. reflexivity.
  - intros r H. apply help_center_results in H.
    destruct H as (articles & a & _ & _ & ->).
    cbn [kb_result snippet source id category].
    pose proof (snippet_length_range (body a) 200) as Hs.
    change (Nat.max (200 + 3) 20) with 203 in Hs.
    split; [exact Hs |]. split; [reflexivity |].
    split; [apply startsWith_prefix; eexists; reflexivity | reflexivity].
Qed.



(* ================================================================== *)
(** * Further properties of the handler *)
(* ================================================================== *)


Lemma firstn_sorted (A : Type) (R : A -> A -> Prop) (l : list A) :
  StronglySorted R l -> forall n, StronglySorted R (firstn n l).
Proof.
  induction 1 as [| x l Hs IH Hall]; intro n.
  - rewrite firstn_nil. constructor.
  - destruct n as [| n]; [constructor |].
    cbn [firstn]. constructor; [apply IH |].
    rewrite Forall_forall in Hall |- *.
    intros y Hy. apply Hall. exact (firstn_incl _ _ _ Hy).
Qed.

Lemma slice0_sorted (A : Type) (R : A -> A -> Prop) (n : Z) (l : list A) :
  StronglySorted R l -> StronglySorted R (slice0 n l).
Proof.
  intro H. unfold slice0. destruct (n <? 0)%Z; apply firstn_sorted; exact H.
Qed.

Lemma plan_tags (src : json) (l : Z) (planned : list (str * Z))
                (p : str * Z) :
  plan src l = Returns planned ->
  In p planned ->
  In (fst p) [tag_zendesk; tag_docs; tag_knowledge_base].
Proof.
  unfold plan, and_then.
  destruct (sources_includes src tag_zendesk) as [[] |];
    try discriminate;
    destruct (sources_includes src tag_docs) as [[] |];
    try discriminate;
    destruct (sources_includes src tag_knowledge_base) as [[] |];
    try discriminate;
    intro H; injection H as <-; cbn [app In]; intro H;
    repeat (destruct H as [<- | H]; [cbn [fst]; tauto |]);
    contradiction.
Qed.



Lemma existsb_str_In (tag : str) (l : list str) :
  existsb (str_eqb tag) l = true <-> In tag l.
Proof.
  rewrite existsb_exists. split.
  - intros (x & Hx & E). apply str_eqb_eq in E. subst x. exact Hx.
  - intro H. exists tag. split; [exact H | apply str_eqb_refl].
Qed.

Lemma listed_plan_membership (tags tags' : list str) (l : Z) :
  (forall tag, In tag [tag_zendesk; tag_docs; tag_knowledge_base] ->
               (In tag tags <-> In tag tags')) ->
  listed_plan tags l = listed_plan tags' l.
Proof.
  intro H.
  assert (He : forall tag,
             In tag [tag_zendesk; tag_docs; tag_knowledge_base] ->
             existsb (str_eqb tag) tags = existsb (str_eqb tag) tags').
  { intros tag Htag. specialize (H tag Htag).
    destruct (existsb (str_eqb tag) tags) eqn:E1;
      destruct (existsb (str_eqb tag) tags') eqn:E2;
      try reflexivity.
    - apply existsb_str_In, H, existsb_str_In in E1.
      rewrite E1 in E2. discriminate E2.
    - apply existsb_str_In, H, existsb_str_In in E2.
      rewrite E2 in E1. discriminate E1. }
  unfold listed_plan.
  rewrite (He tag_zendesk), (He tag_docs), (He tag_knowledge_base);
    cbn [In]; auto.
Qed.

Section HandlerMore.

Variable adapter : str -> str -> Z -> Settled (list SearchResult).
Variable now : Z.



(** X16. The results of a reply with status 200 are in non-increasing
    order of their scores, and each of them is a result that an invoked
    adapter contributed, with its score replaced by the final score and
    nothing else changed. *)
Theorem reply_is_ranked (req : SearchRequest) (body : SearchResponse) :
  fst (unifiedSearch adapter now req) = Status200 body ->
  StronglySorted (fun a c => (score c <= score a)%Q) (results body)
  /\ exists q,
       valid_query (query req) q
       /\ forall r,
            In r (results body) ->
            exists r0,
              In r0 (gathered adapter (snd (unifiedSearch adapter now req)))
              /\ rescored_as now q r0 r.
Proof.
  intro H.
  destruct (@unifiedSearch_200 adapter now req body H)
    as (q & planned & ranked & Hq & _ & _ & Hrank & ->).
  cbn [results]. split.
  - apply slice0_sorted. exact (@rankResults_sorted now _ ranked q Hrank).
  - exists q. split; [apply validated_valid; exact Hq |].
    intros r Hr. apply slice0_incl in Hr.
    apply (@rankResults_In now _ ranked q r Hrank) in Hr.
    destruct Hr as (r0 & Hin & ->). exists r0.
    split; [exact Hin | apply rescore_rescored_as].
Qed.

(** X17. The [sources] of a request that are a list are read as a set
    of the three known tags: two requests with the same query and limit
    whose [sources] hold the same known tags, in whatever order,
    repeated or mixed with other values, get the same reply through the
    same adapter calls. *)
Theorem sources_are_a_set (req req' : SearchRequest) :
  sources_listed req ->
  sources_listed req' ->
  query req = query req' ->
  limit req = limit req' ->
  (forall tag, In tag [lit "zendesk"; lit "docs"; lit "knowledge_base"] ->
               (In tag (sources_of req) <-> In tag (sources_of req'))) ->
  unifiedSearch adapter now req = unifiedSearch adapter now req'.
Proof.
  intros Hl Hl' Hq Hlim Hs.
  destruct (validated (query req)) as [q |] eqn:Ev.
  - assert (Ev' : validated (query req') = Some q)
      by (rewrite <- Hq; exact Ev).
    rewrite (@unifiedSearch_listed adapter now req q Ev Hl).
    rewrite (@unifiedSearch_listed adapter now req' q Ev' Hl').
    unfold invocations, limit_of. rewrite <- Hlim.
    rewrite (@listed_plan_membership (sources_of req) (sources_of req')
               _ Hs).
    reflexivity.
  - assert (Ev' : validated (query req') = None)
      by (rewrite <- Hq; exact Ev).
    rewrite (@unifiedSearch_invalid adapter now req Ev).
    rewrite (@unifiedSearch_invalid adapter now req' Ev').
    rewrite <- Hq. unfold sources_listed in Hl, Hl'.
    destruct (sources req) as [[| | | | |] |]; try contradiction;
      destruct (sources req') as [[| | | | |] |]; try contradiction;
      reflexivity.
Qed.

(** X18. When the [sources] of a request are a list that holds none of
    the three known tags (an empty array, for instance), a valid request
    is answered with status 200, no result and [total] 0, and no adapter
    is invoked. *)
Theorem no_known_source (req : SearchRequest) (q : str) :
  valid_query (query req) q ->
  sources_listed req ->
  (forall tag, In tag (sources_of req) ->
               ~ In tag [lit "zendesk"; lit "docs"; lit "knowledge_base"]) ->
  unifiedSearch adapter now req
  = (Status200 {| success := true; results := []; total := 0;
                  returned := 0; echoed_query := trim q;
                  enabled_sources := [];
                  api_version := lit "unified_v1" |},
     []).
Proof.
  intros H Hl Hnone. apply validated_of_valid in H.
  rewrite (@unifiedSearch_listed adapter now req q H Hl).
  assert (Hplan : listed_plan (sources_of req) (limit_of req) = []).
  { unfold listed_plan.
    assert (Hno : forall tag,
               In tag [lit "zendesk"; lit "docs"; lit "knowledge_base"] ->
               existsb (str_eqb tag) (sources_of req) = false).
    { intros tag Htag.
      destruct (existsb (str_eqb tag) (sources_of req)) eqn:E;
        [| reflexivity].
      apply existsb_str_In in E. exfalso. exact (Hnone tag E Htag). }
    rewrite (Hno tag_zendesk), (Hno tag_docs), (Hno tag_knowledge_base);
      cbn [In]; auto. }
  unfold invocations. rewrite Hplan.
  cbn [map gathered flat_map rankResults array_map and_then js_sort
       fold_right length].
  assert (Hs : slice0 (limit_of req) (@nil SearchResult) = []).
  { unfold slice0. destruct (_ <? 0)%Z; apply firstn_nil. }
  rewrite Hs. reflexivity.
Qed.

End HandlerMore.


Lemma reply_is_ranked_witness :
  StronglySorted (fun a c => (score c <= score a)%Q)
    (reply_results
       (fst (unifiedSearch (adapters outage arrow) 1200
                           (request (lit "password reset") 10)))).
Proof.
  destruct (fst (unifiedSearch (adapters outage arrow) 1200
                               (request (lit "password reset") 10)))
    as [body | body | body] eqn:E; try (vm_compute in E; discriminate E).
  cbn [reply_results].
  exact (proj1 (@reply_is_ranked (adapters outage arrow) 1200%Z
                  (request (lit "password reset") 10) body E)).
Defined.

Lemma sources_are_a_set_witness :
  unifiedSearch (adapters outage arrow) 1200
    {| query := Some (JStr (lit "password reset")); limit := None;
       sources := Some (JArr [JStr (lit "docs"); JStr (lit "faq");
                              JNum 3; JStr (lit "zendesk");
                              JStr (lit "docs")]) |}
  = unifiedSearch (adapters outage arrow) 1200
      {| query := Some (JStr (lit "password reset")); limit := None;
         sources := Some (JArr [JStr (lit "zendesk");
                                JStr (lit "docs")]) |}.
Proof.
  apply sources_are_a_set;
    [exact I | exact I | reflexivity | reflexivity |].
  intros tag Htag.
  cbn [sources_of sources strings_of flat_map app].
  destruct Htag as [<- | [<- | [<- | []]]];
    split; intro H; cbn [In] in H |- *;
    repeat (destruct H as [H | H]; try discriminate H); tauto.
Defined.

Lemma no_known_source_witness :
  snd (unifiedSearch (adapters outage arrow) 1200
         {| query := Some (JStr (lit "password reset")); limit := None;
            sources := Some (JArr []) |})
  = [].
Proof.
  rewrite (@no_known_source (adapters outage arrow) 1200%Z
             {| query := Some (JStr (lit "password reset")); limit := None;
                sources := Some (JArr []) |} (lit "password reset")).
  - reflexivity.
  - split; [reflexivity | vm_compute; lia].
  - exact I.
  - intros tag [].
Defined.



Lemma adapters_tag (world : World) (sep tag q : str) (n : Z)
                   (r : SearchResult) :
  In tag [tag_zendesk; tag_docs; tag_knowledge_base] ->
  In r (contribution (adapters world sep tag q n)) ->
  source r = tag /\ tagged r.
Proof.
  intros Htag. unfold adapters, tagged.
  destruct (str_eqb tag tag_zendesk) eqn:Ez;
    [| destruct (str_eqb tag tag_docs) eqn:Ed].
  - apply str_eqb_eq in Ez. subst tag.
    intro H. apply help_center_results in H.
    destruct H as (articles & a & _ & _ & ->).
    split; [reflexivity |]. left. split; [reflexivity |].
    apply startsWith_prefix. eexists. reflexivity.
  - apply str_eqb_eq in Ed. subst tag.
    intro H. apply docs_results_origin in H.
    destruct H as (d & -> & _).
    split; [reflexivity |]. right. left. split; [reflexivity |].
    apply startsWith_prefix. eexists. reflexivity.
  - destruct Htag as [<- | [<- | [<- | []]]];
      [rewrite str_eqb_refl in Ez; discriminate Ez
      | rewrite str_eqb_refl in Ed; discriminate Ed |].
    intro H. apply help_center_results in H.
    destruct H as (articles & a & _ & _ & ->).
    split; [reflexivity |]. right. right. split; [reflexivity |].
    apply startsWith_prefix. eexists. reflexivity.
Qed.

Lemma tagged_ids_differ (r1 r2 : SearchResult) :
  tagged r1 -> tagged r2 -> source r1 <> source r2 -> id r1 <> id r2.
Proof.
  unfold tagged.
  intros [[S1 P1] | [[S1 P1] | [S1 P1]]] [[S2 P2] | [[S2 P2] | [S2 P2]]]
         Hs Hid;
    try (apply Hs; rewrite S1, S2; reflexivity);
    rewrite Hid in P1;
    apply startsWith_prefix in P1; apply startsWith_prefix in P2;
    destruct P1 as [rest1 E1]; destruct P2 as [rest2 E2];
    rewrite E1 in E2; discriminate E2.
Qed.

(** X20. Every result of a reply of the service with status 200 carries
    the tag of an enabled source, which the reply lists, and an id with
    the prefix of that source ("zendesk_", "docs_" or "kb_"); two
    results from different sources therefore never share an id. *)
Theorem results_carry_their_source (world : World) (sep : str)
                                   (req : SearchRequest)
                                   (body : SearchResponse) :
  fst (service world sep req) = Status200 body ->
  incl (enabled_sources body)
       [lit "zendesk"; lit "docs"; lit "knowledge_base"]
  /\ (forall r, In r (results body) ->
                In (source r) (enabled_sources body) /\ tagged r)
  /\ (forall r1 r2, In r1 (results body) -> In r2 (results body) ->
                    source r1 <> source r2 -> id r1 <> id r2).
Proof.
  intro H. unfold service in H.
  destruct (@unifiedSearch_200 (adapters world sep) (clock_rank world)
              req body H)
    as (q & planned & ranked & _ & Hplan & Hcalls & Hrank & ->).
  cbn [enabled_sources results]. rewrite Hcalls in Hrank.
  assert (Hres : forall r,
             In r (slice0 (limit_of req) ranked) ->
             In (source r) (map fst planned) /\ tagged r).
  { intros r Hr. apply slice0_incl in Hr.
    apply (@rankResults_In (clock_rank world) _ ranked q r Hrank) in Hr.
    destruct Hr as (r0 & Hin & ->).
    apply gathered_In in Hin. destruct Hin as (call & Hcall & Hin).
    apply in_map_iff in Hcall. destruct Hcall as (p & <- & Hp).
    cbn [call_source call_query call_limit] in Hin.
    destruct (@adapters_tag world sep (fst p) q (snd p) r0
                (@plan_tags _ _ _ p Hplan Hp) Hin)
      as [Hsrc Htagged].
    split.
    - unfold rescore, with_score. cbn [source]. rewrite Hsrc.
      apply in_map. exact Hp.
    - exact Htagged. }
  split; [| split; [exact Hres |]].
  - intros tag Htag. apply in_map_iff in Htag.
    destruct Htag as (p & <- & Hp).
    exact (@plan_tags _ _ _ p Hplan Hp).
  - intros r1 r2 H1 H2.
    apply tagged_ids_differ; [apply (Hres r1 H1) | apply (Hres r2 H2)].
Qed.

Lemma results_carry_their_source_witness :
  incl (map source
            (reply_results
               (fst (service outage arrow
                       (request (lit "password reset") 10)))))
       [lit "zendesk"; lit "docs"; lit "knowledge_base"].
Proof.
  destruct (fst (service outage arrow (request (lit "password reset") 10)))
    as [body | body | body] eqn:E; try (vm_compute in E; discriminate E).
  cbn [reply_results].
  destruct (@results_carry_their_source outage arrow
              (request (lit "password reset") 10) body E)
    as (Hincl & Hres & _).
  intros tag Htag. apply in_map_iff in Htag.
  destruct Htag as (r & <- & Hr).
  apply Hincl. apply (Hres r Hr).
Defined.

(* ================================================================== *)
(** * Authentication and the route *)
(* ================================================================== *)

Lemma authenticate_bearer (key provided : str) :
  authenticateApiKey key (Some (lit "Bearer " ++ provided))
  = if str_eqb provided key then Next
    else Unauthorized invalid_key_message.
Proof.
  unfold authenticateApiKey.
  assert (Hstart : startsWith (lit "Bearer ") (lit "Bearer " ++ provided)
                   = true)
    by (apply startsWith_prefix; eexists; reflexivity).
  rewrite Hstart.
  change (truthy (JStr (lit "Bearer " ++ provided))) with true.
  change (skipn 7 (lit "Bearer " ++ provided)) with provided.
  cbn [negb orb]. destruct (str_eqb provided key); reflexivity.
Qed.

Lemma authenticate_next (key : str) (header : option str) :
  authenticateApiKey key header = Next
  <-> header = Some (lit "Bearer " ++ key).
Proof.
  split.
  - unfold authenticateApiKey. destruct header as [h |]; [| discriminate].
    destruct (truthy (JStr h)); cbn [negb orb]; [| discriminate].
    destruct (startsWith (lit "Bearer ") h) eqn:Es; cbn [negb];
      [| discriminate].
    apply startsWith_prefix in Es. destruct Es as [rest ->].
    change (skipn 7 (lit "Bearer " ++ rest)) with rest.
    destruct (str_eqb rest key) eqn:Ek; cbn [negb]; [| discriminate].
    apply str_eqb_eq in Ek. subst rest. reflexivity.
  - intros ->. rewrite authenticate_bearer, str_eqb_refl. reflexivity.
Qed.

(** X21. The middleware passes a request on exactly when its
    authorization header is "Bearer " followed by the configured key.
    The key is never empty, because an unset or empty environment
    variable gives the built-in default "dev-key-12345", so
    "Bearer " alone is always refused.  A header that is missing or
    does not start with "Bearer " gets the message about the header,
    and a header with another key the message "Invalid API key". *)
Theorem api_key_gate (env_key header : option str) :
  (authenticateApiKey (API_KEY env_key) header = Next
   <-> header = Some (lit "Bearer " ++ API_KEY env_key))
  /\ 1 <= length (API_KEY env_key)
  /\ (env_key = None \/ env_key = Some [] ->
      API_KEY env_key = lit "dev-key-12345")
  /\ authenticateApiKey (API_KEY env_key) (Some (lit "Bearer "))
     = Unauthorized (lit "Invalid API key")
  /\ (match header with
      | None => True
      | Some h => startsWith (lit "Bearer ") h = false
      end ->
      authenticateApiKey (API_KEY env_key) header
      = Unauthorized missing_header_message)
  /\ (forall provided,
        provided <> API_KEY env_key ->
        authenticateApiKey (API_KEY env_key)
                           (Some (lit "Bearer " ++ provided))
        = Unauthorized (lit "Invalid API key")).
Proof.
  assert (Hlen : 1 <= length (API_KEY env_key)).
  { destruct env_key as [[| c k] |]; cbn [API_KEY length]; try lia;
      vm_compute; lia. }
  split; [apply authenticate_next |].
  split; [exact Hlen |].
  split; [intros [-> | ->]; reflexivity |].
  split.
  - change (Some (lit "Bearer ")) with (Some (lit "Bearer " ++ [])).
    rewrite authenticate_bearer.
    destruct (API_KEY env_key); [cbn [length] in Hlen; lia | reflexivity].
  - split.
    + destruct header as [h |]; [| reflexivity].
      intro H. unfold authenticateApiKey. rewrite H, orb_true_r. reflexivity.
    + intros provided Hp. rewrite authenticate_bearer.
      destruct (str_eqb provided (API_KEY env_key)) eqn:E; [| reflexivity].
      apply str_eqb_eq in E. contradiction.
Qed.

(** X22. The route checks the key before the handler runs: without the
    exact header the reply is a 401 and no adapter is invoked, also for
    a request whose query is invalid; with it, the reply and the
    adapter calls are those of the handler. *)
Theorem route_checks_key_first
          (key : str)
          (adapter : str -> str -> Z -> Settled (list SearchResult))
          (now : Z) (header : option str) (req : SearchRequest) :
  (header <> Some (lit "Bearer " ++ key) ->
   snd (route key adapter now header req) = []
   /\ (fst (route key adapter now header req)
       = Status401 missing_header_message
       \/ fst (route key adapter now header req)
          = Status401 invalid_key_message))
  /\ (header = Some (lit "Bearer " ++ key) ->
      route key adapter now header req
      = (Handled (fst (unifiedSearch adapter now req)),
         snd (unifiedSearch adapter now req))).
Proof.
  split.
  - intro H. unfold route.
    destruct (authenticateApiKey key header) as [| message] eqn:E.
    + apply authenticate_next in E. contradiction.
    + cbn [fst snd]. split; [reflexivity |].
      unfold authenticateApiKey in E.
      destruct header as [h |]; [| injection E as <-; left; reflexivity].
      destruct (negb (truthy (JStr h))
                || negb (startsWith (lit "Bearer ") h));
        [injection E as <-; left; reflexivity |].
      destruct (negb (str_eqb (skipn 7 h) key));
        [injection E as <-; right; reflexivity | discriminate E].
  - intro H. unfold route.
    apply authenticate_next in H. rewrite H. reflexivity.
Qed.

(* ================================================================== *)
(** * [calculateRelevanceScore] *)
(* ================================================================== *)

Lemma relevance_words_fold (titleLower contentLower : str)
                           (words : list str) :
  forall acc : Z,
    exists k : Z,
      (0 <= k)%Z
      /\ fold_left (relevance_word_step titleLower contentLower) words acc
         = (acc + 5 * k)%Z.
Proof.
  induction words as [| word rest IH]; intro acc; cbn [fold_left].
  - exists 0%Z. split; lia.
  - destruct (IH (relevance_word_step titleLower contentLower acc word))
      as (k & Hk & ->).
    unfold relevance_word_step.
    destruct (2 <? length word);
      [destruct (includes titleLower word);
       destruct (includes contentLower word) |];
      [exists (3 + k)%Z | exists (2 + k)%Z | exists (1 + k)%Z
       | exists k | exists k];
      split; lia.
Qed.

(** X23. The relevance score is a multiple of 5 between 0 and 100; it is
    at least 50 when the lowercased title contains the lowercased
    query, at least 25 when the content does, and at least 75 when both
    do. *)
Theorem relevance_score_range (item : Item) (query : str) :
  (0 <= calculateRelevanceScore item query <= 100)%Z
  /\ (exists k, calculateRelevanceScore item query = (5 * k)%Z)
  /\ (includes (toLowerCase (item_title item)) (toLowerCase query) = true ->
      (50 <= calculateRelevanceScore item query)%Z)
  /\ (includes (toLowerCase (item_content item)) (toLowerCase query) = true ->
      (25 <= calculateRelevanceScore item query)%Z)
  /\ (includes (toLowerCase (item_title item)) (toLowerCase query) = true ->
      includes (toLowerCase (item_content item)) (toLowerCase query) = true ->
      (75 <= calculateRelevanceScore item query)%Z).
Proof.
  unfold calculateRelevanceScore.
  set (tl := toLowerCase (item_title item)).
  set (cl := toLowerCase (item_content item)).
  set (ql := toLowerCase query).
  set (s1 := (if includes cl ql
              then (if includes tl ql then 0 + 50 else 0) + 25
              else (if includes tl ql then 0 + 50 else 0))%Z).
  destruct (relevance_words_fold tl cl (split_char space ql) s1)
    as (k & Hk & ->).
  assert (Hs1 : exists j,
             (0 <= j)%Z /\ s1 = (5 * j)%Z
             /\ (includes tl ql = true -> 10 <= j)%Z
             /\ (includes cl ql = true -> 5 <= j)%Z
             /\ (includes tl ql = true -> includes cl ql = true ->
                 15 <= j)%Z).
  { unfold s1. destruct (includes tl ql); destruct (includes cl ql);
      [exists 15%Z | exists 10%Z | exists 5%Z | exists 0%Z];
      repeat split; intros; try discriminate; lia. }
  destruct Hs1 as (j & Hj & -> & Ht & Hc & Htc).
  split; [lia |]. split.
  - destruct (Z_le_gt_dec (5 * j + 5 * k) 100) as [Hle | Hgt].
    + exists (j + k)%Z. rewrite Z.min_l by exact Hle. lia.
    + exists 20%Z. rewrite Z.min_r by lia. reflexivity.
  - split; [intro H; specialize (Ht H); lia |].
    split; [intro H; specialize (Hc H); lia |].
    intros H1 H2. specialize (Htc H1 H2). lia.
Qed.

(* ================================================================== *)
(** * The lexical score of the documentation adapter *)
(* ================================================================== *)

Lemma split_whitespace_head (s : str) :
  exists piece pieces rest,
    split_whitespace s = piece :: pieces
    /\ s = piece ++ rest
    /\ (forall c s', s = c :: s' -> is_whitespace c = true -> piece = []).
Proof.
  induction s as [| c s (piece & pieces & rest & Hsplit & Hs & Hws)].
  - exists [], [], []. repeat split.
  - cbn [split_whitespace]. destruct (is_whitespace c) eqn:Ec.
    + destruct s as [| c' s'].
      * exists [], [[]], [c]. repeat split.
      * destruct (is_whitespace c') eqn:Ec'.
        -- rewrite Hsplit.
           rewrite (Hws c' s' eq_refl Ec') in Hsplit |- *.
           exists [], pieces, (c :: c' :: s'). repeat split.
        -- exists [], (split_whitespace (c' :: s')), (c :: c' :: s').
           repeat split.
    + rewrite Hsplit. exists (c :: piece), pieces, rest.
      split; [reflexivity |]. split; [rewrite Hs at 1; reflexivity |].
      intros c0 s0 H. injection H as <- <-. rewrite Ec. discriminate.
Qed.

(** Every piece of [s.split(/\s+/)] occurs in [s]. *)
Lemma split_whitespace_pieces (s piece : str) :
  In piece (split_whitespace s) -> includes s piece = true.
Proof.
  revert piece. induction s as [| c s IH]; intros piece.
  - cbn [split_whitespace]. intros [<- | []]. reflexivity.
  - assert (Hlater : In piece (split_whitespace s) ->
                     includes (c :: s) piece = true).
    { intro H. cbn [includes]. rewrite (IH _ H). apply orb_true_r. }
    cbn [split_whitespace]. destruct (is_whitespace c).
    + destruct s as [| c' s'].
      * intros [<- | H]; [reflexivity | exact (Hlater H)].
      * destruct (is_whitespace c'); [exact Hlater |].
        intros [<- | H]; [reflexivity | exact (Hlater H)].
    + destruct (split_whitespace_head s)
        as (first & pieces & rest & Hsplit & Hs & _).
      rewrite Hsplit in Hlater |- *.
      intros [<- | H].
      * apply includes_infix. exists [], rest.
        rewrite Hs at 1. reflexivity.
      * apply Hlater. right. exact H.
Qed.

Lemma word_points_range (titleLower bc : str) (words : list str) :
  (0 <= word_points titleLower bc words <= 30 * Z.of_nat (length words))%Z.
Proof.
  induction words as [| word rest IH]; cbn [word_points length]; [lia |].
  destruct (includes titleLower word); destruct (includes bc word); lia.
Qed.

Lemma word_points_all (titleLower bc : str) (words : list str) :
  (forall word, In word words -> includes titleLower word = true) ->
  (20 * Z.of_nat (length words) <= word_points titleLower bc words)%Z.
Proof.
  induction words as [| word rest IH]; intro H; cbn [word_points length];
    [lia |].
  rewrite (H word (or_introl eq_refl)).
  assert (Hrest : (20 * Z.of_nat (length rest)
                   <= word_points titleLower bc rest)%Z)
    by (apply IH; intros w Hw; apply H; right; exact Hw).
  destruct (includes bc word); lia.
Qed.

(** X24. The lexical score of a document lies between 0 and 150 plus 30
    for each query word longer than 2 characters.  When the lowercase
    title contains the trimmed lowercase query, it contains each of its
    words as well, so the score is at least 100 plus 20 for each such
    word; a document is kept only if the title or the breadcrumb text
    contains the query or one of these words. *)
Theorem lexical_score_range (query : str) (d : Doc) :
  (0 <= trimmed_lexical query d
   <= 150 + 30 * Z.of_nat (length (long_words (trim (toLowerCase query)))))%Z
  /\ (includes (toLowerCase (text_of (t d))) (trim (toLowerCase query)) = true ->
      (100 + 20 * Z.of_nat (length (long_words (trim (toLowerCase query))))
       <= trimmed_lexical query d)%Z)
  /\ ((0 < trimmed_lexical query d)%Z ->
      exists text,
        In text (trim (toLowerCase query)
                 :: long_words (trim (toLowerCase query)))
        /\ (includes (toLowerCase (text_of (t d))) text = true
            \/ includes (breadcrumbText d) text = true)).
Proof.
  unfold trimmed_lexical, lexical_formula.
  set (ql := trim (toLowerCase query)).
  set (tl := toLowerCase (text_of (t d))).
  set (bc := breadcrumbText d).
  pose proof (word_points_range tl bc (long_words ql)) as Hrange.
  split; [destruct (includes tl ql); destruct (includes bc ql); lia |].
  split.
  - intro Hphrase. rewrite Hphrase.
    assert (Hall : (20 * Z.of_nat (length (long_words ql))
                    <= word_points tl bc (long_words ql))%Z).
    { apply word_points_all. intros word Hword.
      unfold long_words in Hword. apply filter_In in Hword.
      destruct Hword as [Hword _]. apply split_whitespace_pieces in Hword.
      exact (includes_trans _ _ _ Hphrase Hword). }
    destruct (includes bc ql); lia.
  - intro Hpos.
    destruct (includes tl ql) eqn:Et;
      [exists ql; split; [left; reflexivity | left; exact Et] |].
    destruct (includes bc ql) eqn:Eb;
      [exists ql; split; [left; reflexivity | right; exact Eb] |].
    assert (Hwords : (0 < word_points tl bc (long_words ql))%Z) by lia.
    clear - Hwords.
    induction (long_words ql) as [| word rest IH];
      cbn [word_points] in Hwords; [lia |].
    destruct (includes tl word) eqn:Ew;
      [exists word; split; [right; left; reflexivity | left; exact Ew] |].
    destruct (includes bc word) eqn:Ew';
      [exists word; split; [right; left; reflexivity | right; exact Ew'] |].
    destruct (IH ltac:(lia)) as (text & [Htext | Htext] & Hin).
    + exists text. split; [left; exact Htext | exact Hin].
    + exists text. split; [right; right; exact Htext | exact Hin].
Qed.

(* ================================================================== *)
(** * Escaped markup *)
(* ================================================================== *)

Lemma no_lt_no_tag (s : str) :
  existsb (ascii_eqb lt_char) s = false -> contains_tag s = false.
Proof.
  induction s as [| c s IH]; [reflexivity |].
  cbn [existsb contains_tag]. intro H.
  apply orb_false_iff in H. destruct H as [Hc Hs].
  rewrite (IH Hs), orb_false_r.
  unfold ascii_eqb in Hc |- *. rewrite Ascii.eqb_sym, Hc. reflexivity.
Qed.

Lemma replaceAll_skip (p r : str) (skipped rest : str) :
  replaceAll_from (length skipped) p r (skipped ++ rest)
  = replaceAll_from 0 p r rest.
Proof.
  induction skipped as [| c skipped IH]; [reflexivity |].
  cbn [length app replaceAll_from]. exact IH.
Qed.

(** A match at the head is replaced. *)
Lemma replaceAll_match (c : ascii) (p r rest : str) :
  replaceAll (c :: p) r ((c :: p) ++ rest) = r ++ replaceAll (c :: p) r rest.
Proof.
  unfold replaceAll. cbn [app replaceAll_from].
  assert (Hs : startsWith (c :: p) (c :: p ++ rest) = true)
    by (apply startsWith_prefix; exists rest; reflexivity).
  rewrite Hs. cbn [length Nat.pred]. rewrite replaceAll_skip. reflexivity.
Qed.

(** Text without the first code unit of the pattern is copied. *)
Lemma replaceAll_copy (c : ascii) (p r : str) (copied rest : str) :
  existsb (ascii_eqb c) copied = false ->
  replaceAll (c :: p) r (copied ++ rest)
  = copied ++ replaceAll (c :: p) r rest.
Proof.
  unfold replaceAll.
  induction copied as [| x copied IH]; [reflexivity |].
  cbn [existsb]. intro H. apply orb_false_iff in H. destruct H as [Hx Hc].
  cbn [app replaceAll_from startsWith].
  unfold ascii_eqb in Hx |- *. rewrite Hx. cbn [andb].
  rewrite (IH Hc). reflexivity.
Qed.

Lemma collapse_before (x : str) (g : ascii) :
  is_whitespace g = false ->
  collapse_whitespace (x ++ [g]) = collapse_whitespace x ++ [g].
Proof.
  intro Hg. induction x as [| c r IH].
  - cbn [app collapse_whitespace]. rewrite Hg. reflexivity.
  - cbn [app collapse_whitespace]. destruct (is_whitespace c).
    + destruct r as [| c' r'].
      * cbn [app collapse_whitespace]. rewrite Hg. reflexivity.
      * cbn [app] in IH |- *. destruct (is_whitespace c');
          rewrite IH; reflexivity.
    + rewrite IH. reflexivity.
Qed.

Lemma trimEnd_before (x : str) (g : ascii) :
  is_whitespace g = false -> trimEnd (x ++ [g]) = x ++ [g].
Proof.
  intro Hg. induction x as [| c r IH].
  - cbn [app trimEnd]. rewrite Hg. reflexivity.
  - cbn [app]. rewrite trimEnd_cons, IH.
    destruct (r ++ [g]) eqn:E; [destruct r; discriminate E | reflexivity].
Qed.

Lemma replaceAll_untouched (c : ascii) (p r before rest : str) :
  existsb (ascii_eqb c) before = false ->
  startsWith (c :: p) (c :: before ++ rest) = false ->
  replaceAll (c :: p) r rest = rest ->
  replaceAll (c :: p) r (c :: before ++ rest) = c :: before ++ rest.
Proof.
  intros Hbefore Hhead Hrest.
  unfold replaceAll at 1. cbn [replaceAll_from]. rewrite Hhead.
  fold (replaceAll (c :: p) r (before ++ rest)).
  rewrite (@replaceAll_copy _ _ _ _ _ Hbefore), Hrest. reflexivity.
Qed.

(** X25. Tags are removed before entities are decoded, so a tag that
    arrives escaped leaves the normalizer as a tag: for a text [x]
    without [&], [<] and [>], the cleaned form of "&lt;" x "&gt;" is
    "<", the text with its white space collapsed, and ">". *)
Theorem escaped_tag_is_restored (x : str) :
  existsb (ascii_eqb (ascii_of_nat 38)) x = false ->
  existsb (ascii_eqb lt_char) x = false ->
  existsb (ascii_eqb gt_char) x = false ->
  clean (lit "&lt;" ++ x ++ lit "&gt;")
  = [lt_char] ++ collapse_whitespace x ++ [gt_char]
  /\ contains_tag (clean (lit "&lt;" ++ x ++ lit "&gt;")) = true.
Proof.
  intros Hamp Hlt Hgt.
  set (amp := ascii_of_nat 38) in *.
  assert (Hclean : clean (lit "&lt;" ++ x ++ lit "&gt;")
                   = [lt_char] ++ collapse_whitespace x ++ [gt_char]).
  { unfold clean.
    assert (Hplain : existsb (ascii_eqb lt_char)
                             (lit "&lt;" ++ x ++ lit "&gt;") = false)
      by (rewrite !existsb_app, Hlt; reflexivity).
    rewrite (@strip_tags_plain _ (@no_lt_no_tag _ Hplain)).
    assert (Hmid : existsb (ascii_eqb amp) (lit "lt;" ++ x) = false)
      by (rewrite existsb_app, Hamp; reflexivity).
    assert (Hhead : existsb (ascii_eqb amp) ([lt_char] ++ x) = false)
      by (rewrite existsb_app, Hamp; reflexivity).
    assert (Hout : existsb (ascii_eqb amp) ([lt_char] ++ x ++ [gt_char])
                   = false)
      by (rewrite !existsb_app, Hamp; reflexivity).
    assert (Hdecoded : decode_entities (lit "&lt;" ++ x ++ lit "&gt;")
                       = [lt_char] ++ x ++ [gt_char]).
    { unfold decode_entities, entities. cbn [fold_left fst snd].
      change (lit "&lt;" ++ x ++ lit "&gt;")
        with (amp :: (lit "lt;" ++ x) ++ lit "&gt;").
      change (lit "&nbsp;") with (amp :: lit "nbsp;").
      rewrite (@replaceAll_untouched amp (lit "nbsp;") [space]
                 (lit "lt;" ++ x) (lit "&gt;") Hmid eq_refl eq_refl).
      change (lit "&amp;") with (amp :: lit "amp;").
      rewrite (@replaceAll_untouched amp (lit "amp;") (lit "&")
                 (lit "lt;" ++ x) (lit "&gt;") Hmid eq_refl eq_refl).
      change (amp :: (lit "lt;" ++ x) ++ lit "&gt;")
        with ((amp :: lit "lt;") ++ x ++ lit "&gt;").
      change (lit "&lt;") with (amp :: lit "lt;").
      rewrite replaceAll_match.
      rewrite (@replaceAll_copy _ _ _ _ _ Hamp).
      change (replaceAll (amp :: lit "lt;") [lt_char] (lit "&gt;"))
        with (lit "&gt;").
      rewrite app_assoc.
      change (lit "&gt;") with (amp :: lit "gt;").
      rewrite (@replaceAll_copy _ _ _ _ _ Hhead).
      change (replaceAll (amp :: lit "gt;") [gt_char] (amp :: lit "gt;"))
        with [gt_char].
      rewrite <- app_assoc.
      rewrite <- (app_nil_r ([lt_char] ++ x ++ [gt_char])).
      change (lit "&quot;") with (amp :: lit "quot;").
      rewrite (@replaceAll_copy _ _ _ _ _ Hout).
      change (replaceAll (amp :: lit "quot;") [dquote] []) with (@nil ascii).
      change (lit "&#39;") with (amp :: lit "#39;").
      rewrite (@replaceAll_copy _ _ _ _ _ Hout).
      change (replaceAll (amp :: lit "#39;") (lit "'") []) with (@nil ascii).
      reflexivity. }
    rewrite Hdecoded.
    cbn [app].
    rewrite (@collapse_keeps lt_char (x ++ [gt_char]) eq_refl).
    rewrite (@collapse_before x gt_char eq_refl).
    unfold trim. cbn [trimStart].
    change (is_whitespace lt_char) with false. cbv iota.
    change (lt_char :: collapse_whitespace x ++ [gt_char])
      with ((lt_char :: collapse_whitespace x) ++ [gt_char]).
    apply trimEnd_before. reflexivity. }
  split; [exact Hclean |].
  rewrite Hclean. cbn [app contains_tag].
  unfold ascii_eqb at 1. rewrite Ascii.eqb_refl. cbn [andb].
  rewrite existsb_app. cbn [existsb]. unfold ascii_eqb at 2.
  rewrite Ascii.eqb_refl. cbn [orb]. rewrite orb_true_r. reflexivity.
Qed.

Lemma escaped_tag_is_restored_witness :
  clean (lit "&lt;script&gt;") = lit "<script>".
Proof.
  apply (@escaped_tag_is_restored (lit "script")); reflexivity.
Defined.
